(** * Prefixed readers and writers over nested containers

    A shallow embedding of the prefix-composition layer of the [objects]
    library (PrefixedReader, PrefixedWriter, Prefixed) and of the [Map]
    backing container, together with the properties of the prefix walk,
    of prefix flattening and of the write path.

    Go interface values are modelled by the type [any]; a method call
    through an interface is a call through a dispatch table, which is
    tied to the wrappers' own methods with a recursion budget, because a
    container may hand back a wrapper around itself. *)

From Stdlib Require Import String List ZArith Lia Bool Arith.
From Stdlib Require Import Ascii Decimal DecimalString DecimalNat Permutation.
From Stdlib Require DecimalFacts.
Import ListNotations.
Local Open Scope string_scope.
Local Open Scope list_scope.

(** ** Values *)

(** [type Key []string] *)
Definition Key : Type := list string.

(** Modelled from the spec: [Key.Prepend] is declared outside the given
    sources.  Section 4.1: Prepend inserts the other sequence's segments
    before the receiver's own, in place.  [Prepend k other] is the value of
    the variable [k] after the statement [k.Prepend(other)]. *)
Definition Prepend (k other : Key) : Key := other ++ k.

(** The type tag handed to [Put] as a hint. *)
Inductive Type_ : Type :=
| TypeMap
| TypeSlice
| TypeTag (name : string).

(** The marker stored in the field [Want] of an [Error]: the source writes
    [Reader(nil)] or [Writer(nil)], or leaves the field out. *)
Inductive capability : Type :=
| NoWant
| WantReader
| WantWriter.

Section Values.

(** Handles of the objects that the backing containers provide. *)
Variable obj : Type.

(** A value of static type [any], [Reader] or [Writer]: the nil
    interface, a scalar, an object of a backing container, or one of the
    three wrapper structs.  The type switches of the flattening match the
    struct types themselves, which an interface holds by value, so a chain
    of wrappers is a finite nesting. *)
Inductive any : Type :=
| Nil
| Int (n : Z)
| Obj (o : obj)
| OfPrefixedReader (pr : PrefixedReader)
| OfPrefixedWriter (pw : PrefixedWriter)
| OfPrefixed (p : Prefixed)
with PrefixedReader : Type :=
| mkPrefixedReader (key : Key) (r : any)
with PrefixedWriter : Type :=
| mkPrefixedWriter (key : Key) (w : any)
with Prefixed : Type :=
| mkPrefixed (pr : PrefixedReader) (pw : PrefixedWriter).

Definition PrefixedReader_Key (pr : PrefixedReader) : Key :=
  let 'mkPrefixedReader key _ := pr in key.
Definition PrefixedReader_R (pr : PrefixedReader) : any :=
  let 'mkPrefixedReader _ r := pr in r.
Definition PrefixedWriter_Key (pw : PrefixedWriter) : Key :=
  let 'mkPrefixedWriter key _ := pw in key.
Definition PrefixedWriter_W (pw : PrefixedWriter) : any :=
  let 'mkPrefixedWriter _ w := pw in w.
Definition Prefixed_PrefixedReader (p : Prefixed) : PrefixedReader :=
  let 'mkPrefixed pr _ := p in pr.
Definition Prefixed_PrefixedWriter (p : Prefixed) : PrefixedWriter :=
  let 'mkPrefixed _ pw := p in pw.

(** A Go [error]: one of the two sentinels, an opaque error of a backing
    container, or a structured [*Error]. *)
Inductive error : Type :=
| ErrNotFound
| ErrUnexpectedType
| ErrBackend (msg : string)
| Error (Op : string) (Key_ : Key) (Got : any) (Want : capability)
        (Err : error).

Definition Error_Key (e : error) : Key :=
  match e with Error _ k _ _ _ => k | _ => [] end.

(** Modelled from the spec: the matching of errors is declared outside
    the given sources.  Section 4.2: matching "is this a not-found error"
    unwraps nested causes. *)
Fixpoint cause (e : error) : error :=
  match e with
  | Error _ _ _ _ e' => cause e'
  | _ => e
  end.

(** [PrefixReader], [PrefixWriter] and [Prefix]. *)
Definition PrefixReader (r : any) (keys : Key) : PrefixedReader :=
  mkPrefixedReader keys r.
Definition PrefixWriter (w : any) (keys : Key) : PrefixedWriter :=
  mkPrefixedWriter keys w.
Definition Prefix (iface : any) (keys : Key) : Prefixed :=
  mkPrefixed (mkPrefixedReader keys iface) (mkPrefixedWriter keys iface).

End Values.

Arguments Nil {obj}.
Arguments Int {obj} n.
Arguments Obj {obj} o.
Arguments OfPrefixedReader {obj} pr.
Arguments OfPrefixedWriter {obj} pw.
Arguments OfPrefixed {obj} p.
Arguments mkPrefixedReader {obj} key r.
Arguments mkPrefixedWriter {obj} key w.
Arguments mkPrefixed {obj} pr pw.
Arguments PrefixedReader_Key {obj} pr.
Arguments PrefixedReader_R {obj} pr.
Arguments PrefixedWriter_Key {obj} pw.
Arguments PrefixedWriter_W {obj} pw.
Arguments Prefixed_PrefixedReader {obj} p.
Arguments Prefixed_PrefixedWriter {obj} p.
Arguments ErrNotFound {obj}.
Arguments ErrUnexpectedType {obj}.
Arguments ErrBackend {obj} msg.
Arguments Error {obj} Op Key_ Got Want Err.
Arguments Error_Key {obj} e.
Arguments cause {obj} e.
Arguments PrefixReader {obj} r keys.
Arguments PrefixWriter {obj} w keys.
Arguments Prefix {obj} iface keys.

(** ** Outcomes of a call *)

(** A call returns, panics (a method call on a nil interface, a panic of
    the reflection library), or exhausts the recursion budget of the
    model. *)
Inductive outcome (A : Type) : Type :=
| Ret (a : A)
| Panic
| OutOfFuel.

Arguments Ret {A} a.
Arguments Panic {A}.
Arguments OutOfFuel {A}.

(** ** Backing containers *)

(** The calls that reach an object of a backing container. *)
Inductive call (obj : Type) : Type :=
| CallGet (o : obj) (key : string)
| CallSafeGet (o : obj) (key : string)
| CallList (o : obj)
| CallDel (o : obj) (key : string)
| CallSafeDel (o : obj) (key : string)
| CallSet (o : obj) (key : string) (value : any obj)
| CallSafeSet (o : obj) (key : string) (value : any obj)
| CallPut (o : obj) (key : string) (hint : Type_)
| CallSafePut (o : obj) (key : string) (hint : Type_).

Arguments CallGet {obj} o key.
Arguments CallSafeGet {obj} o key.
Arguments CallList {obj} o.
Arguments CallDel {obj} o key.
Arguments CallSafeDel {obj} o key.
Arguments CallSet {obj} o key value.
Arguments CallSafeSet {obj} o key value.
Arguments CallPut {obj} o key hint.
Arguments CallSafePut {obj} o key hint.

(** The capability interfaces as the backing containers implement them.
    [World] is the content of every backing store.  The four flags say
    which interfaces the dynamic type of an object satisfies; reads
    observe the world, writes may change it. *)
Class Backend (obj World : Type) : Type := {
  implReader : obj -> bool;
  implSafeReader : obj -> bool;
  implWriter : obj -> bool;
  implSafeWriter : obj -> bool;
  obj_Get : obj -> string -> World -> outcome (any obj * bool);
  obj_SafeGet : obj -> string -> World -> outcome (any obj * option (error obj));
  obj_List : obj -> World -> outcome (list string);
  obj_Del : obj -> string -> World -> outcome (bool * World);
  obj_SafeDel : obj -> string -> World -> outcome (option (error obj) * World);
  obj_Set : obj -> string -> any obj -> World -> outcome (bool * World);
  obj_SafeSet : obj -> string -> any obj -> World ->
                outcome ((bool * option (error obj)) * World);
  obj_Put : obj -> string -> Type_ -> World -> outcome (any obj * World);
  obj_SafePut : obj -> string -> Type_ -> World ->
                outcome ((any obj * option (error obj)) * World)
}.

(** ** The state threaded through a call *)

Record state (obj World : Type) : Type := mkState {
  world : World;
  calls : list (call obj)
}.

Arguments mkState {obj World} world calls.
Arguments world {obj World} s.
Arguments calls {obj World} s.

Definition M (obj World A : Type) : Type :=
  state obj World -> outcome (A * state obj World).

Definition ret {obj World A} (a : A) : M obj World A :=
  fun s => Ret (a, s).

Definition bind {obj World A B} (m : M obj World A) (k : A -> M obj World B)
  : M obj World B :=
  fun s =>
    match m s with
    | Ret (a, s') => k a s'
    | Panic => Panic
    | OutOfFuel => OutOfFuel
    end.

Definition panic {obj World A} : M obj World A := fun _ => Panic.
Definition out_of_fuel {obj World A} : M obj World A := fun _ => OutOfFuel.

Declare Scope go_scope.
Delimit Scope go_scope with go.
Notation "x <- m ;; k" := (bind m (fun x => k))
  (at level 61, m at next level, right associativity) : go_scope.
Notation "' p <- m ;; k" := (bind m (fun x => let 'p := x in k))
  (at level 61, p pattern, m at next level, right associativity) : go_scope.
Local Open Scope go_scope.

(** A read of a backing object: logged, the world untouched. *)
Definition call_read {obj World A} (c : call obj) (f : World -> outcome A)
  : M obj World A :=
  fun s =>
    match f (world s) with
    | Ret a => Ret (a, mkState (world s) (calls s ++ [c]))
    | Panic => Panic
    | OutOfFuel => OutOfFuel
    end.

(** A write of a backing object: logged, the world replaced. *)
Definition call_write {obj World A} (c : call obj)
    (f : World -> outcome (A * World)) : M obj World A :=
  fun s =>
    match f (world s) with
    | Ret (a, w') => Ret (a, mkState w' (calls s ++ [c]))
    | Panic => Panic
    | OutOfFuel => OutOfFuel
    end.

(** ** Interface method tables *)

(** What a method call through an interface value resolves to. *)
Record Dispatch (obj World : Type) : Type := mkDispatch {
  iGet : any obj -> string -> M obj World (any obj * bool);
  iSafeGet : any obj -> string -> M obj World (any obj * option (error obj));
  iList : any obj -> M obj World (list string);
  iDel : any obj -> string -> M obj World bool;
  iSafeDel : any obj -> string -> M obj World (option (error obj));
  iSet : any obj -> string -> any obj -> M obj World bool;
  iSafeSet : any obj -> string -> any obj ->
             M obj World (bool * option (error obj));
  iPut : any obj -> string -> Type_ -> M obj World (any obj);
  iSafePut : any obj -> string -> Type_ ->
             M obj World (any obj * option (error obj))
}.

Arguments mkDispatch {obj World}.
Arguments iGet {obj World} d v key.
Arguments iSafeGet {obj World} d v key.
Arguments iList {obj World} d v.
Arguments iDel {obj World} d v key.
Arguments iSafeDel {obj World} d v key.
Arguments iSet {obj World} d v key value.
Arguments iSafeSet {obj World} d v key value.
Arguments iPut {obj World} d v key hint.
Arguments iSafePut {obj World} d v key hint.

(** ** Type assertions *)

Section Assertions.

Context {obj World : Type} {B : Backend obj World}.

(** [_, ok := v.(Reader)]: PrefixedReader and Prefixed have the methods
    Get, List and Type; PrefixedWriter has not. *)
Definition is_Reader (v : any obj) : bool :=
  match v with
  | Obj o => implReader o
  | OfPrefixedReader _ => true
  | OfPrefixed _ => true
  | _ => false
  end.

(** [_, ok := v.(SafeReader)] *)
Definition is_SafeReader (v : any obj) : bool :=
  match v with
  | Obj o => implSafeReader o
  | OfPrefixedReader _ => true
  | OfPrefixed _ => true
  | _ => false
  end.

(** [_, ok := v.(Writer)] *)
Definition is_Writer (v : any obj) : bool :=
  match v with
  | Obj o => implWriter o
  | OfPrefixedWriter _ => true
  | OfPrefixed _ => true
  | _ => false
  end.

(** [_, ok := v.(SafeWriter)] *)
Definition is_SafeWriter (v : any obj) : bool :=
  match v with
  | Obj o => implSafeWriter o
  | OfPrefixedWriter _ => true
  | OfPrefixed _ => true
  | _ => false
  end.

End Assertions.

(** ** The methods of the wrappers *)

Definition maxDepth : nat := 128.

Section Methods.

Context {obj World : Type} {B : Backend obj World}.

(** The table that calls through [Reader], [SafeReader], [Writer] and
    [SafeWriter] values go to. *)
Variable d : Dispatch obj World.

Local Abbreviation any := (any obj).
Local Abbreviation error := (error obj).
Local Abbreviation PrefixedReader := (PrefixedReader obj).
Local Abbreviation PrefixedWriter := (PrefixedWriter obj).
Local Abbreviation M := (M obj World).

(** The loop of [PrefixedReader.base]: [i] is the index of the segment
    at the head of [keys], [r] the current container. *)
Fixpoint base_loop (pr : PrefixedReader) (op : string) (i : nat)
    (keys : Key) (r : any) : M (any * option error) :=
  match keys with
  | [] => ret (r, None)
  | key :: rest =>
      let advance (v : any) : M (any * option error) :=
        if is_Reader v then base_loop pr op (S i) rest v
        else ret (Nil, Some (Error op (firstn (i + 1) (PrefixedReader_Key pr))
                                   v WantReader ErrUnexpectedType)) in
      if is_SafeReader r then
        '(v, err) <- iSafeGet d r key ;;
        match err with
        | Some e =>
            ret (Nil, Some (Error op (firstn (i + 1) (PrefixedReader_Key pr))
                                  r NoWant e))
        | None => advance v
        end
      else
        '(v, ok) <- iGet d r key ;;
        if negb ok then
          ret (Nil, Some (Error op (firstn (i + 1) (PrefixedReader_Key pr))
                                r NoWant ErrNotFound))
        else advance v
  end.

(** [func (pr PrefixedReader) base(ctx, op) (Reader, error)] *)
Definition PrefixedReader_base (pr : PrefixedReader) (op : string)
  : M (any * option error) :=
  base_loop pr op 0 (PrefixedReader_Key pr) (PrefixedReader_R pr).

(** [func (pr PrefixedReader) SafeGet(ctx, key) (any, error)] *)
Definition PrefixedReader_SafeGet (pr : PrefixedReader) (key : string)
  : M (any * option error) :=
  '(r, err) <- PrefixedReader_base pr "Get" ;;
  match err with
  | Some e => ret (Nil, Some e)
  | None =>
      if is_SafeReader r then
        '(v, err) <- iSafeGet d r key ;;
        match err with
        | Some e =>
            ret (Nil, Some (Error "Get" (PrefixedReader_Key pr ++ [key])
                                  r NoWant e))
        | None => ret (v, None)
        end
      else
        '(v, ok) <- iGet d r key ;;
        if negb ok then
          ret (Nil, Some (Error "Get" (PrefixedReader_Key pr ++ [key])
                                r NoWant ErrNotFound))
        else ret (v, None)
  end.

(** [func (pr PrefixedReader) Get(ctx, key) (value any, ok bool)] *)
Definition PrefixedReader_Get (pr : PrefixedReader) (key : string)
  : M (any * bool) :=
  '(v, err) <- PrefixedReader_SafeGet pr key ;;
  ret (v, match err with None => true | Some _ => false end).

(** [func (pr PrefixedReader) List(ctx) []string] *)
Definition PrefixedReader_List (pr : PrefixedReader) : M (list string) :=
  '(r, err) <- PrefixedReader_base pr "List" ;;
  match err with
  | Some _ => ret []
  | None => iList d r
  end.

(** The loop of [PrefixedReader.reader] with [n] iterations left. *)
Fixpoint reader_loop (n : nat) (pr : PrefixedReader) (key : Key) : any :=
  match n with
  | 0 => Nil
  | S n' =>
      match PrefixedReader_R pr with
      | OfPrefixedReader x =>
          reader_loop n' x (Prepend key (PrefixedReader_Key x))
      | OfPrefixed x =>
          reader_loop n' (Prefixed_PrefixedReader x)
            (Prepend key (PrefixedReader_Key (Prefixed_PrefixedReader x)))
      | _ => PrefixedReader_R pr
      end
  end.

(** [func (pr PrefixedReader) reader() Reader] *)
Definition PrefixedReader_reader (pr : PrefixedReader) : any :=
  reader_loop maxDepth pr (PrefixedReader_Key pr).

(** The loop of [PrefixedWriter.writer] with [n] iterations left. *)
Fixpoint writer_loop (n : nat) (pw : PrefixedWriter) (key : Key)
  : any * Key :=
  match n with
  | 0 => (Nil, [])
  | S n' =>
      match PrefixedWriter_W pw with
      | OfPrefixedWriter x =>
          writer_loop n' x (Prepend key (PrefixedWriter_Key x))
      | OfPrefixed x =>
          writer_loop n' (Prefixed_PrefixedWriter x)
            (Prepend key (PrefixedWriter_Key (Prefixed_PrefixedWriter x)))
      | _ => (PrefixedWriter_W pw, key)
      end
  end.

(** [func (pw PrefixedWriter) writer() (Writer, Key)] *)
Definition PrefixedWriter_writer (pw : PrefixedWriter) : any * Key :=
  writer_loop maxDepth pw (PrefixedWriter_Key pw).

(** [func (pw PrefixedWriter) reader(op) (PrefixedReader, error)] *)
Definition PrefixedWriter_reader (pw : PrefixedWriter) (op : string)
  : PrefixedReader * option error :=
  let '(w, key) := PrefixedWriter_writer pw in
  if negb (is_Reader w) then
    (mkPrefixedReader [] Nil,
     Some (Error op (PrefixedWriter_Key pw) (PrefixedWriter_W pw)
                 WantReader ErrUnexpectedType))
  else (mkPrefixedReader key w, None).

(** [func (pw PrefixedWriter) SafeDel(ctx, key) error] *)
Definition PrefixedWriter_SafeDel (pw : PrefixedWriter) (key : string)
  : M (option error) :=
  let '(pr, err) := PrefixedWriter_reader pw "Del" in
  match err with
  | Some e => ret (Some e)
  | None =>
      '(r, err) <- PrefixedReader_base pr "Del" ;;
      match err with
      | Some e => ret (Some e)
      | None =>
          if is_SafeWriter r then
            err <- iSafeDel d r key ;;
            match err with
            | Some e =>
                ret (Some (Error "Del" (PrefixedWriter_Key pw ++ [key])
                                 Nil NoWant e))
            | None => ret None
            end
          else if is_Writer r then
            ok <- iDel d r key ;;
            if negb ok then
              ret (Some (Error "Del" (PrefixedWriter_Key pw ++ [key])
                               Nil NoWant ErrNotFound))
            else ret None
          else
            ret (Some (Error "Del" (PrefixedWriter_Key pw ++ [key])
                             r WantWriter ErrUnexpectedType))
      end
  end.

(** [func (pw PrefixedWriter) SafeSet(ctx, key, value) (bool, error)] *)
Definition PrefixedWriter_SafeSet (pw : PrefixedWriter) (key : string)
    (value : any) : M (bool * option error) :=
  let '(pr, err) := PrefixedWriter_reader pw "Set" in
  match err with
  | Some e => ret (false, Some e)
  | None =>
      '(r, err) <- PrefixedReader_base pr "Set" ;;
      match err with
      | Some e => ret (false, Some e)
      | None =>
          if is_SafeWriter r then
            '(ok, err) <- iSafeSet d r key value ;;
            match err with
            | Some e =>
                ret (false,
                     Some (Error "Set" (PrefixedWriter_Key pw ++ [key])
                                 Nil NoWant e))
            | None => ret (ok, None)
            end
          else if is_Writer r then
            ok <- iSet d r key value ;;
            ret (ok, None)
          else
            ret (false,
                 Some (Error "Set" (PrefixedWriter_Key pw ++ [key])
                             r WantWriter ErrUnexpectedType))
      end
  end.

(** The loop of [PrefixedWriter.SafePut]: [i] is the index of the
    segment at the head of [keys], [w] the current writer. *)
Fixpoint put_loop (normkey : Key) (hint : Type_) (i : nat) (keys : Key)
    (w : any) : M (any * option error) :=
  match keys with
  | [] => ret (w, None)
  | key :: rest =>
      if is_SafeWriter w then
        '(w', err) <- iSafePut d w key hint ;;
        match err with
        | Some e =>
            ret (Nil, Some (Error "Put" (firstn (i + 1) normkey) w NoWant e))
        | None => put_loop normkey hint (S i) rest w'
        end
      else
        w' <- iPut d w key hint ;;
        put_loop normkey hint (S i) rest w'
  end.

(** [func (pw PrefixedWriter) SafePut(ctx, key, hint) (Writer, error)] *)
Definition PrefixedWriter_SafePut (pw : PrefixedWriter) (key : string)
    (hint : Type_) : M (any * option error) :=
  let '(w, k) := PrefixedWriter_writer pw in
  let normkey := k ++ [key] in
  put_loop normkey hint 0 normkey w.

(** [func (pw PrefixedWriter) Del(ctx, key) bool] *)
Definition PrefixedWriter_Del (pw : PrefixedWriter) (key : string)
  : M bool :=
  err <- PrefixedWriter_SafeDel pw key ;;
  ret (match err with None => true | Some _ => false end).

(** [func (pw PrefixedWriter) Set(ctx, key, value) bool] *)
Definition PrefixedWriter_Set (pw : PrefixedWriter) (key : string)
    (value : any) : M bool :=
  '(ok, _) <- PrefixedWriter_SafeSet pw key value ;;
  ret ok.

(** [func (pw PrefixedWriter) Put(ctx, key, hint) Writer] *)
Definition PrefixedWriter_Put (pw : PrefixedWriter) (key : string)
    (hint : Type_) : M any :=
  '(w, _) <- PrefixedWriter_SafePut pw key hint ;;
  ret w.

End Methods.

Arguments base_loop {obj World B} d pr op i keys r.
Arguments PrefixedReader_base {obj World B} d pr op.
Arguments PrefixedReader_SafeGet {obj World B} d pr key.
Arguments PrefixedReader_Get {obj World B} d pr key.
Arguments PrefixedReader_List {obj World B} d pr.
Arguments reader_loop {obj} n pr key.
Arguments PrefixedReader_reader {obj} pr.
Arguments writer_loop {obj} n pw key.
Arguments PrefixedWriter_writer {obj} pw.
Arguments PrefixedWriter_reader {obj World B} pw op.
Arguments PrefixedWriter_SafeDel {obj World B} d pw key.
Arguments PrefixedWriter_SafeSet {obj World B} d pw key value.
Arguments put_loop {obj World B} d normkey hint i keys w.
Arguments PrefixedWriter_SafePut {obj World B} d pw key hint.
Arguments PrefixedWriter_Del {obj World B} d pw key.
Arguments PrefixedWriter_Set {obj World B} d pw key value.
Arguments PrefixedWriter_Put {obj World B} d pw key hint.

(** ** Dynamic dispatch *)

Section Dispatch.

Context {obj World : Type} {B : Backend obj World}.

(** The table of a model whose recursion budget is spent. *)
Definition spent : Dispatch obj World :=
  mkDispatch
    (fun _ _ => out_of_fuel) (fun _ _ => out_of_fuel)
    (fun _ => out_of_fuel)
    (fun _ _ => out_of_fuel) (fun _ _ => out_of_fuel)
    (fun _ _ _ => out_of_fuel) (fun _ _ _ => out_of_fuel)
    (fun _ _ _ => out_of_fuel) (fun _ _ _ => out_of_fuel).

(** A method call on an interface value goes to the method of its
    dynamic type: to the backing container for an object, to the
    wrapper's own method for a wrapper ([Prefixed] promotes the methods
    of its two halves).  A call on the nil interface panics; the other
    combinations are excluded by Go's static typing and are given the
    same outcome.  [fuel] bounds the depth of wrapper methods called from
    wrapper methods. *)
Fixpoint dispatch (fuel : nat) : Dispatch obj World :=
  match fuel with
  | 0 => spent
  | S fuel' =>
      let d := dispatch fuel' in
      mkDispatch
        (fun v key =>
           match v with
           | Obj o => call_read (CallGet o key) (obj_Get o key)
           | OfPrefixedReader pr => PrefixedReader_Get d pr key
           | OfPrefixed p =>
               PrefixedReader_Get d (Prefixed_PrefixedReader p) key
           | _ => panic
           end)
        (fun v key =>
           match v with
           | Obj o => call_read (CallSafeGet o key) (obj_SafeGet o key)
           | OfPrefixedReader pr => PrefixedReader_SafeGet d pr key
           | OfPrefixed p =>
               PrefixedReader_SafeGet d (Prefixed_PrefixedReader p) key
           | _ => panic
           end)
        (fun v =>
           match v with
           | Obj o => call_read (CallList o) (obj_List o)
           | OfPrefixedReader pr => PrefixedReader_List d pr
           | OfPrefixed p => PrefixedReader_List d (Prefixed_PrefixedReader p)
           | _ => panic
           end)
        (fun v key =>
           match v with
           | Obj o => call_write (CallDel o key) (obj_Del o key)
           | OfPrefixedWriter pw => PrefixedWriter_Del d pw key
           | OfPrefixed p =>
               PrefixedWriter_Del d (Prefixed_PrefixedWriter p) key
           | _ => panic
           end)
        (fun v key =>
           match v with
           | Obj o => call_write (CallSafeDel o key) (obj_SafeDel o key)
           | OfPrefixedWriter pw => PrefixedWriter_SafeDel d pw key
           | OfPrefixed p =>
               PrefixedWriter_SafeDel d (Prefixed_PrefixedWriter p) key
           | _ => panic
           end)
        (fun v key value =>
           match v with
           | Obj o => call_write (CallSet o key value) (obj_Set o key value)
           | OfPrefixedWriter pw => PrefixedWriter_Set d pw key value
           | OfPrefixed p =>
               PrefixedWriter_Set d (Prefixed_PrefixedWriter p) key value
           | _ => panic
           end)
        (fun v key value =>
           match v with
           | Obj o =>
               call_write (CallSafeSet o key value) (obj_SafeSet o key value)
           | OfPrefixedWriter pw => PrefixedWriter_SafeSet d pw key value
           | OfPrefixed p =>
               PrefixedWriter_SafeSet d (Prefixed_PrefixedWriter p) key value
           | _ => panic
           end)
        (fun v key hint =>
           match v with
           | Obj o => call_write (CallPut o key hint) (obj_Put o key hint)
           | OfPrefixedWriter pw => PrefixedWriter_Put d pw key hint
           | OfPrefixed p =>
               PrefixedWriter_Put d (Prefixed_PrefixedWriter p) key hint
           | _ => panic
           end)
        (fun v key hint =>
           match v with
           | Obj o =>
               call_write (CallSafePut o key hint) (obj_SafePut o key hint)
           | OfPrefixedWriter pw => PrefixedWriter_SafePut d pw key hint
           | OfPrefixed p =>
               PrefixedWriter_SafePut d (Prefixed_PrefixedWriter p) key hint
           | _ => panic
           end)
  end.

(** A run with some budget that ends otherwise than by exhausting it. *)
Definition evaluates {A : Type}
    (run : Dispatch obj World -> M obj World A) (s : state obj World)
    (r : outcome (A * state obj World)) : Prop :=
  exists fuel, run (dispatch fuel) s = r /\ r <> OutOfFuel.

End Dispatch.

(** ** The reflection primitives used by [Map] *)

(** Modelled on the documentation of Go's package [reflect], for values of
    boolean, integer, string, interface and string-keyed map types. *)
Module reflect.

(** A Go value, tagged with the kind of its static type. *)
#[local] Set Warnings "-register-all".
Inductive govalue : Type :=
| GBool (b : bool)
| GInt (n : Z)
| GString (s : string)
| GInterface (x : option govalue)
| GMap (entries : option (list (string * govalue))).

(** A [reflect.Value]: the zero Value (kind Invalid), or a value with
    its read-only flag (set when it was reached through an unexported
    field). *)
Inductive Value : Type :=
| ZeroValue
| Val (ro : bool) (x : govalue).

Definition ValueOf (x : govalue) : Value := Val false x.

Fixpoint lookup (key : string) (entries : list (string * govalue))
  : option govalue :=
  match entries with
  | [] => None
  | (k, x) :: rest => if String.eqb k key then Some x else lookup key rest
  end.

(** [v.MapIndex(key)]: the zero Value if the key is not found or the map
    is nil; panics unless [v] is a map. *)
Definition MapIndex (v : Value) (key : string) : outcome Value :=
  match v with
  | Val ro (GMap None) => Ret ZeroValue
  | Val ro (GMap (Some entries)) =>
      match lookup key entries with
      | Some x => Ret (Val ro x)
      | None => Ret ZeroValue
      end
  | _ => Panic
  end.

(** [v.IsZero()]: whether [v] is the zero value of its type; panics on
    the zero Value. *)
Definition IsZero (v : Value) : outcome bool :=
  match v with
  | ZeroValue => Panic
  | Val _ (GBool b) => Ret (negb b)
  | Val _ (GInt n) => Ret (Z.eqb n 0)
  | Val _ (GString s) => Ret (Nat.eqb (String.length s) 0)
  | Val _ (GInterface x) => Ret (match x with None => true | Some _ => false end)
  | Val _ (GMap m) => Ret (match m with None => true | Some _ => false end)
  end.

(** [v.CanInterface()]; panics on the zero Value. *)
Definition CanInterface (v : Value) : outcome bool :=
  match v with
  | ZeroValue => Panic
  | Val ro _ => Ret (negb ro)
  end.

(** [v.Interface()]: the value as an [any], [None] for the nil
    interface. *)
Definition Interface (v : Value) : outcome (option govalue) :=
  match v with
  | ZeroValue => Panic
  | Val true _ => Panic
  | Val false (GInterface x) => Ret x
  | Val false x => Ret (Some x)
  end.

(** [v.Type().String()] *)
Definition type_name (x : govalue) : string :=
  match x with
  | GBool _ => "bool"
  | GInt _ => "int"
  | GString _ => "string"
  | GInterface _ => "interface {}"
  | GMap _ => "map"
  end.

End reflect.

(** ** The [Map] container of map.go *)

Section Map.

Variable obj : Type.

(** [tryMake] is declared outside the given sources: it turns the value
    read from the map into the value handed to the caller. *)
Variable tryMake : option reflect.govalue -> any obj.

(** A [reflect.Value] stored in a field of type [any]. *)
Variable of_Value : reflect.Value -> any obj.

(** [type Map struct { v reflect.Value }], over a map with string
    keys. *)
Record Map : Type := mkMap { Map_v : reflect.Value }.

(** [func (m *Map) SafeGet(ctx, key) (any, error)].  The key type of the
    map is [string], so [k.CanConvert(t)] holds and [k.Convert(t)] is
    [k]. *)
Definition Map_SafeGet (m : Map) (key : string)
  : outcome (any obj * option (error obj)) :=
  match reflect.MapIndex (Map_v m) key with
  | Ret v =>
      match reflect.IsZero v with
      | Ret true =>
          Ret (Nil, Some (Error "Get" [key] Nil NoWant ErrNotFound))
      | Ret false =>
          match reflect.CanInterface v with
          | Ret false =>
              Ret (Nil,
                   Some (Error "Get" [key] (of_Value v) NoWant
                           (ErrBackend
                              ("cannot access value: " ++
                               match v with
                               | reflect.Val _ x => reflect.type_name x
                               | reflect.ZeroValue => ""
                               end))))
          | Ret true =>
              match reflect.Interface v with
              | Ret x => Ret (tryMake x, None)
              | Panic => Panic
              | OutOfFuel => OutOfFuel
              end
          | Panic => Panic
          | OutOfFuel => OutOfFuel
          end
      | Panic => Panic
      | OutOfFuel => OutOfFuel
      end
  | Panic => Panic
  | OutOfFuel => OutOfFuel
  end.

(** [func (m *Map) Get(ctx, key) (any, bool)] *)
Definition Map_Get (m : Map) (key : string) : outcome (any obj * bool) :=
  match Map_SafeGet m key with
  | Ret (v, err) => Ret (v, match err with None => true | Some _ => false end)
  | Panic => Panic
  | OutOfFuel => OutOfFuel
  end.

(** Whether the map holds an entry for [key]. *)
Definition Map_has (m : Map) (key : string) : bool :=
  match Map_v m with
  | reflect.Val _ (reflect.GMap (Some entries)) =>
      match reflect.lookup key entries with
      | Some _ => true
      | None => false
      end
  | _ => false
  end.

End Map.

Arguments mkMap v : rename.
Arguments Map_v m : rename.
Arguments Map_SafeGet {obj} tryMake of_Value m key.
Arguments Map_Get {obj} tryMake of_Value m key.

(** ** The listing of [Map] *)

Section MapList.

(** The order in which the runtime enumerates the keys of a map; Go
    leaves it unspecified. *)
Variable order : list string -> list string.




(** [func (m *Map) Type() Type] *)
Definition Map_Type (m : Map) : Type_ := TypeMap.

End MapList.

(** ** The conversions of package [strconv] used by [Slice] *)

(** Modelled on the documentation and the code of Go's package [strconv],
    for a platform whose [int] has 64 bits. *)
Module strconv.

Local Open Scope Z_scope.

(** The sentinel that a [*NumError] wraps. *)
Inductive NumError : Type :=
| ErrSyntax
| ErrRange.

(** The value of a decimal digit. *)
Definition digit (c : ascii) : option Z :=
  let n := Z.of_nat (nat_of_ascii c) in
  if (48 <=? n) && (n <=? 57) then Some (n - 48) else None.

Definition maxUint64 : Z := 2 ^ 64 - 1.

(** The loop of [ParseUint(s, 10, 64)] over the bytes of [s], from the
    value [n] read so far. *)
Fixpoint ParseUint_loop (s : string) (n : Z) : Z + NumError :=
  match s with
  | EmptyString => inl n
  | String c rest =>
      match digit c with
      | None => inr ErrSyntax
      | Some d =>
          if maxUint64 / 10 + 1 <=? n then inr ErrRange
          else
            let n1 := n * 10 + d in
            if maxUint64 <? n1 then inr ErrRange else ParseUint_loop rest n1
      end
  end.

(** [ParseUint(s, 10, 64)] *)
Definition ParseUint (s : string) : Z + NumError :=
  match s with
  | EmptyString => inr ErrSyntax
  | _ => ParseUint_loop s 0
  end.

(** [ParseInt(s, 10, 0)]: a range error of [ParseUint] leaves the largest
    unsigned value, which the bounds of [int] reject. *)
Definition ParseInt (s : string) : Z + NumError :=
  match s with
  | EmptyString => inr ErrSyntax
  | String c rest =>
      let '(neg, body) :=
        if Ascii.eqb c "+"%char then (false, rest)
        else if Ascii.eqb c "-"%char then (true, rest)
        else (false, s) in
      match ParseUint body with
      | inr ErrSyntax => inr ErrSyntax
      | r =>
          let un := match r with inl u => u | inr _ => maxUint64 end in
          if negb neg && (2 ^ 63 <=? un) then inr ErrRange
          else if neg && (2 ^ 63 <? un) then inr ErrRange
          else inl (if neg then - un else un)
      end
  end.

(** [Atoi(s)]: ParseInt(s, 10, 0) converted to [int]. *)
Definition Atoi (s : string) : Z + NumError := ParseInt s.

(** [Itoa(i)]: the decimal text of [i]. *)
Definition Itoa (i : Z) : string :=
  match i with
  | Zneg p =>
      String "-"%char (NilEmpty.string_of_uint (Nat.to_uint (Pos.to_nat p)))
  | _ => NilEmpty.string_of_uint (Nat.to_uint (Z.to_nat i))
  end.

(** The text of the error. *)
Definition message (e : NumError) : string :=
  match e with
  | ErrSyntax => "invalid syntax"
  | ErrRange => "value out of range"
  end.

End strconv.

(** ** The [Slice] container *)

Section Slice.

Variable obj : Type.

(** [tryMake] and the boxing of a [reflect.Value], as for [Map]. *)
Variable tryMake : option reflect.govalue -> any obj.
Variable of_Value : reflect.Value -> any obj.

(** [type Slice struct { v reflect.Value }], over a slice: its elements
    and the read-only flag of the Value. *)
Record Slice : Type := mkSlice {
  Slice_ro : bool;
  Slice_elems : list reflect.govalue
}.

(** [s.v.Len()] *)
Definition Slice_Len (s : Slice) : Z := Z.of_nat (length (Slice_elems s)).

(** [s.v.Index(n)]: panics when [n] is out of range. *)
Definition Slice_Index (s : Slice) (n : Z) : outcome reflect.Value :=
  if (n <? 0)%Z || (Slice_Len s <=? n)%Z then Panic
  else
    match nth_error (Slice_elems s) (Z.to_nat n) with
    | Some x => Ret (reflect.Val (Slice_ro s) x)
    | None => Panic
    end.

(** [func (s *Slice) SafeGet(key) (any, error)] *)
Definition Slice_SafeGet (s : Slice) (key : string)
  : outcome (any obj * option (error obj)) :=
  match strconv.Atoi key with
  | inr err =>
      Ret (Nil, Some (Error "Get" [key] Nil NoWant
                        (ErrBackend (strconv.message err))))
  | inl n =>
      if (n <? 0)%Z || (Slice_Len s <=? n)%Z then
        Ret (Nil, Some (Error "Get" [key] Nil NoWant
                          (ErrBackend "out of bounds error")))
      else
        match Slice_Index s n with
        | Ret v =>
            match reflect.CanInterface v with
            | Ret false =>
                Ret (Nil,
                     Some (Error "Get" [key] (of_Value v) NoWant
                             (ErrBackend
                                ("cannot access value: " ++
                                 match v with
                                 | reflect.Val _ x => reflect.type_name x
                                 | reflect.ZeroValue => ""
                                 end))))
            | Ret true =>
                match reflect.Interface v with
                | Ret x => Ret (tryMake x, None)
                | Panic => Panic
                | OutOfFuel => OutOfFuel
                end
            | Panic => Panic
            | OutOfFuel => OutOfFuel
            end
        | Panic => Panic
        | OutOfFuel => OutOfFuel
        end
  end.

(** [func (s *Slice) Get(key) (any, bool)] *)
Definition Slice_Get (s : Slice) (key : string) : outcome (any obj * bool) :=
  match Slice_SafeGet s key with
  | Ret (v, err) => Ret (v, match err with None => true | Some _ => false end)
  | Panic => Panic
  | OutOfFuel => OutOfFuel
  end.

(** The loop of [Slice.ListTo]: [n] iterations left, [i] the index. *)
Fixpoint ListTo_loop (n : nat) (i : Z) (keys : list string) : list string :=
  match n with
  | 0 => keys
  | S n' => ListTo_loop n' (i + 1)%Z (keys ++ [strconv.Itoa i])
  end.

(** [func (s *Slice) ListTo(keys *[]string)]: the content of [*keys]
    after the call. *)
Definition Slice_ListTo (s : Slice) (keys : list string) : list string :=
  ListTo_loop (length (Slice_elems s)) 0%Z keys.

(** [func (s *Slice) List() []string] *)
Definition Slice_List (s : Slice) : list string := Slice_ListTo s [].

(** [func (s *Slice) Type() Type] *)
Definition Slice_Type (s : Slice) : Type_ := TypeSlice.

End Slice.

Arguments Slice_SafeGet {obj} tryMake of_Value s key.
Arguments Slice_Get {obj} tryMake of_Value s key.

(** ** An in-memory store

    A tree of string-keyed nodes with integer leaves, reached through
    handles that carry the path of a node.  It implements [Reader] and
    [Writer], and [SafeReader] and [SafeWriter] for the handles flagged
    so; the examples below run the wrappers over it. *)
Module MemStore.

#[local] Set Warnings "-register-all".
Inductive tree : Type :=
| Leaf (n : Z)
| Node (kvs : list (string * tree)).

Record handle : Type := mkHandle {
  safe_reader : bool;
  safe_writer : bool;
  path : list string
}.

Fixpoint assoc (key : string) (kvs : list (string * tree)) : option tree :=
  match kvs with
  | [] => None
  | (k, t) :: rest => if String.eqb k key then Some t else assoc key rest
  end.

Fixpoint find (p : list string) (t : tree) : option tree :=
  match p with
  | [] => Some t
  | k :: p' =>
      match t with
      | Node kvs =>
          match assoc k kvs with
          | Some t' => find p' t'
          | None => None
          end
      | Leaf _ => None
      end
  end.

(** Applies [f] to the entries of the node at path [p]. *)
Fixpoint update (p : list string)
    (f : list (string * tree) -> list (string * tree)) (t : tree) : tree :=
  match p with
  | [] => match t with Node kvs => Node (f kvs) | Leaf n => Leaf n end
  | k :: p' =>
      match t with
      | Node kvs =>
          Node (map (fun kt : string * tree =>
                       if String.eqb (fst kt) k
                       then (fst kt, update p' f (snd kt)) else kt) kvs)
      | Leaf n => Leaf n
      end
  end.

Definition remove (key : string) (kvs : list (string * tree)) :=
  filter (fun kt : string * tree => negb (String.eqb (fst kt) key)) kvs.

Definition child (h : handle) (key : string) : handle :=
  mkHandle (safe_reader h) (safe_writer h) (path h ++ [key]).

Definition view (h : handle) (key : string) (t : tree) : any handle :=
  match t with
  | Leaf n => Int n
  | Node _ => Obj (child h key)
  end.

Definition Get (h : handle) (key : string) (w : tree)
  : outcome (any handle * bool) :=
  match find (path h ++ [key]) w with
  | Some t => Ret (view h key t, true)
  | None => Ret (Nil, false)
  end.

Definition SafeGet (h : handle) (key : string) (w : tree)
  : outcome (any handle * option (error handle)) :=
  match find (path h ++ [key]) w with
  | Some t => Ret (view h key t, None)
  | None => Ret (Nil, Some (Error "Get" [key] Nil NoWant ErrNotFound))
  end.

Definition List (h : handle) (w : tree) : outcome (list string) :=
  match find (path h) w with
  | Some (Node kvs) => Ret (map fst kvs)
  | _ => Ret []
  end.

Definition Del (h : handle) (key : string) (w : tree)
  : outcome (bool * tree) :=
  match find (path h ++ [key]) w with
  | Some _ => Ret (true, update (path h) (remove key) w)
  | None => Ret (false, w)
  end.

Definition SafeDel (h : handle) (key : string) (w : tree)
  : outcome (option (error handle) * tree) :=
  match find (path h ++ [key]) w with
  | Some _ => Ret (None, update (path h) (remove key) w)
  | None => Ret (Some (Error "Del" [key] Nil NoWant ErrNotFound), w)
  end.

Definition Set_ (h : handle) (key : string) (value : any handle) (w : tree)
  : outcome (bool * tree) :=
  match value, find (path h) w with
  | Int n, Some (Node _) =>
      Ret (true,
           update (path h) (fun kvs => (key, Leaf n) :: remove key kvs) w)
  | _, _ => Ret (false, w)
  end.

Definition SafeSet (h : handle) (key : string) (value : any handle)
    (w : tree) : outcome ((bool * option (error handle)) * tree) :=
  match value, find (path h) w with
  | Int n, Some (Node _) =>
      Ret ((true, None),
           update (path h) (fun kvs => (key, Leaf n) :: remove key kvs) w)
  | _, _ =>
      Ret ((false, Some (Error "Set" [key] value NoWant ErrUnexpectedType)), w)
  end.

(** Put returns the node at [key], creating an empty one when the key is
    absent; over a leaf it has no sub-writer to return. *)
Definition Put (h : handle) (key : string) (hint : Type_) (w : tree)
  : outcome (any handle * tree) :=
  match find (path h ++ [key]) w with
  | Some (Node _) => Ret (Obj (child h key), w)
  | Some (Leaf _) => Ret (Nil, w)
  | None =>
      match find (path h) w with
      | Some (Node _) =>
          Ret (Obj (child h key),
               update (path h) (fun kvs => (key, Node []) :: kvs) w)
      | _ => Ret (Nil, w)
      end
  end.

Definition SafePut (h : handle) (key : string) (hint : Type_) (w : tree)
  : outcome ((any handle * option (error handle)) * tree) :=
  match Put h key hint w with
  | Ret (Nil, w') =>
      Ret ((Nil, Some (Error "Put" [key] Nil NoWant ErrUnexpectedType)), w')
  | Ret (v, w') => Ret ((v, None), w')
  | Panic => Panic
  | OutOfFuel => OutOfFuel
  end.

#[export] Instance backend : Backend handle tree := {
  implReader _ := true;
  implSafeReader h := safe_reader h;
  implWriter _ := true;
  implSafeWriter h := safe_writer h;
  obj_Get := Get;
  obj_SafeGet := SafeGet;
  obj_List := List;
  obj_Del := Del;
  obj_SafeDel := SafeDel;
  obj_Set := Set_;
  obj_SafeSet := SafeSet;
  obj_Put := Put;
  obj_SafePut := SafePut
}.

(** The root handles: plain, and with the safe capabilities. *)
Definition plain : handle := mkHandle false false [].
Definition safe : handle := mkHandle true true [].

Definition start (w : tree) : state handle tree := mkState w [].

(** [{a: {b: {x: 1}}}] *)
Definition nested : tree :=
  Node [("a", Node [("b", Node [("x", Leaf 1)])])].

(** [{a: 7}] *)
Definition scalar : tree := Node [("a", Leaf 7)].

(** [{}] *)
Definition empty : tree := Node [].

End MemStore.

(** ** Notions used to state the properties *)

Section Chains.

Context {obj World : Type} {B : Backend obj World}.

(** The number of wrappers that [PrefixedReader.reader] has to unwrap
    before it reaches a reader that is no wrapper. *)
Fixpoint reader_depth (v : any obj) : nat :=
  match v with
  | OfPrefixedReader (mkPrefixedReader _ r) => S (reader_depth r)
  | OfPrefixed (mkPrefixed (mkPrefixedReader _ r) _) => S (reader_depth r)
  | _ => 0
  end.

(** The innermost reader of a chain of wrappers. *)
Fixpoint reader_base (v : any obj) : any obj :=
  match v with
  | OfPrefixedReader (mkPrefixedReader _ r) => reader_base r
  | OfPrefixed (mkPrefixed (mkPrefixedReader _ r) _) => reader_base r
  | _ => v
  end.

(** The same for [PrefixedWriter.writer]. *)
Fixpoint writer_depth (v : any obj) : nat :=
  match v with
  | OfPrefixedWriter (mkPrefixedWriter _ w) => S (writer_depth w)
  | OfPrefixed (mkPrefixed _ (mkPrefixedWriter _ w)) => S (writer_depth w)
  | _ => 0
  end.

Fixpoint writer_base (v : any obj) : any obj :=
  match v with
  | OfPrefixedWriter (mkPrefixedWriter _ w) => writer_base w
  | OfPrefixed (mkPrefixed _ (mkPrefixedWriter _ w)) => writer_base w
  | _ => v
  end.

(** The key that [writer] has accumulated in [key] when it reaches the
    innermost writer: every wrapper's key is prepended in turn. *)
Fixpoint writer_key (v : any obj) (key : Key) : Key :=
  match v with
  | OfPrefixedWriter (mkPrefixedWriter k w) => writer_key w (Prepend key k)
  | OfPrefixed (mkPrefixed _ (mkPrefixedWriter k w)) =>
      writer_key w (Prepend key k)
  | _ => key
  end.

(** [n] wrappers with the keys [[k]] around [v]. *)
Fixpoint wrap_writer (n : nat) (k : string) (v : any obj) : any obj :=
  match n with
  | 0 => v
  | S n' => OfPrefixedWriter (mkPrefixedWriter [k] (wrap_writer n' k v))
  end.

Fixpoint wrap_reader (n : nat) (k : string) (v : any obj) : any obj :=
  match n with
  | 0 => v
  | S n' => OfPrefixedReader (mkPrefixedReader [k] (wrap_reader n' k v))
  end.

(** The prefix [[b]] over a reader that has the prefix [[a]]. *)
Definition nested_reader (base : any obj) (a b : string)
  : PrefixedReader obj :=
  PrefixReader (OfPrefixedReader (PrefixReader base [a])) [b].

(** One wrapper with the inner prefix followed by the outer one. *)
Definition inner_first (base : any obj) (a b : string) : PrefixedReader obj :=
  PrefixReader base [a; b].

(** One wrapper with the outer prefix followed by the inner one. *)
Definition outer_first (base : any obj) (a b : string) : PrefixedReader obj :=
  PrefixReader base [b; a].

(** [r'] is [r], unless [r] ran out of budget. *)
Definition le_out {A : Type} (r r' : outcome A) : Prop :=
  r = OutOfFuel \/ r = r'.

Definition le_M {A : Type} (m m' : M obj World A) : Prop :=
  forall s, le_out (m s) (m' s).

(** The read methods of [d'] agree with those of [d] wherever the
    latter do not run out of budget. *)
Definition le_read (d d' : Dispatch obj World) : Prop :=
  (forall v key, le_M (iGet d v key) (iGet d' v key)) /\
  (forall v key, le_M (iSafeGet d v key) (iSafeGet d' v key)) /\
  (forall v, le_M (iList d v) (iList d' v)).

Variable d : Dispatch obj World.

(** The chain of plain Put calls over [keys] from the writer [w], each
    call made on the writer that the call before returned. *)
Fixpoint put_chain (hint : Type_) (keys : Key) (w : any obj)
  : M obj World (any obj) :=
  match keys with
  | [] => ret w
  | key :: rest => bind (iPut d w key hint) (put_chain hint rest)
  end.

(** No writer that the chain of Put calls over [keys] puts a segment
    on implements SafeWriter. *)
Fixpoint plain_chain (hint : Type_) (keys : Key) (w : any obj)
    (s : state obj World) : Prop :=
  match keys with
  | [] => True
  | key :: rest =>
      is_SafeWriter w = false /\
      match iPut d w key hint s with
      | Ret (w', s') => plain_chain hint rest w' s'
      | _ => True
      end
  end.

(** What Get makes of a result of SafeGet. *)
Definition found (r : outcome ((any obj * option (error obj)) * state obj World))
  : outcome ((any obj * bool) * state obj World) :=
  match r with
  | Ret ((v, err), s) =>
      Ret ((v, match err with None => true | Some _ => false end), s)
  | Panic => Panic
  | OutOfFuel => OutOfFuel
  end.

End Chains.

Arguments put_chain {obj World} d hint keys w.
Arguments plain_chain {obj World B} d hint keys w s.

(** ** Notions used to state further properties *)

Section Effects.

Context {obj World : Type}.

(** The calls of the read interfaces. *)
Definition is_read_call (c : call obj) : bool :=
  match c with
  | CallGet _ _ | CallSafeGet _ _ | CallList _ => true
  | _ => false
  end.

(** From [s] to [s'] the world is the same and only read calls were
    logged. *)
Definition reads_only (s s' : state obj World) : Prop :=
  world s' = world s /\
  exists l, calls s' = calls s ++ l /\ forallb is_read_call l = true.

(** The read methods of a table only read. *)
Definition read_table (d : Dispatch obj World) : Prop :=
  (forall v key s r s', iGet d v key s = Ret (r, s') -> reads_only s s') /\
  (forall v key s r s', iSafeGet d v key s = Ret (r, s') -> reads_only s s') /\
  (forall v s r s', iList d v s = Ret (r, s') -> reads_only s s').

(** The prefix [kb] over a reader that has the prefix [ka], and the single
    wrapper with the two prefixes joined. *)
Definition nested_keys (base : any obj) (ka kb : Key) : PrefixedReader obj :=
  PrefixReader (OfPrefixedReader (PrefixReader base ka)) kb.

Definition joined_keys (base : any obj) (ka kb : Key) : PrefixedReader obj :=
  PrefixReader base (ka ++ kb).

End Effects.

Section Erasure.

Context {obj World : Type} {B : Backend obj World}.

(** A run that ends with a value, or with a failure whose error is
    forgotten. *)
Definition T (A : Type) : Type :=
  state obj World -> outcome (option A * state obj World).

Definition obind {A C : Type} (m : T A) (k : A -> T C) : T C :=
  fun s =>
    match m s with
    | Ret (Some a, s') => k a s'
    | Ret (None, s') => Ret (None, s')
    | Panic => Panic
    | OutOfFuel => OutOfFuel
    end.

(** The result of a walk or of SafeGet with its error forgotten. *)
Definition erase {A : Type}
    (r : outcome ((A * option (error obj)) * state obj World))
  : outcome (option A * state obj World) :=
  match r with
  | Ret ((a, None), s) => Ret (Some a, s)
  | Ret ((_, Some _), s) => Ret (None, s)
  | Panic => Panic
  | OutOfFuel => OutOfFuel
  end.

(** What Get returns for an erased result of SafeGet. *)
Definition to_found (r : outcome (option (any obj) * state obj World))
  : outcome ((any obj * bool) * state obj World) :=
  match r with
  | Ret (Some v, s) => Ret ((v, true), s)
  | Ret (None, s) => Ret ((Nil, false), s)
  | Panic => Panic
  | OutOfFuel => OutOfFuel
  end.

(** What List returns after an erased walk. *)
Definition to_list (d : Dispatch obj World)
    (r : outcome (option (any obj) * state obj World))
  : outcome (list string * state obj World) :=
  match r with
  | Ret (Some c, s) => iList d c s
  | Ret (None, s) => Ret ([], s)
  | Panic => Panic
  | OutOfFuel => OutOfFuel
  end.

(** One lookup, through SafeGet when the container has it. *)
Definition look (d : Dispatch obj World) (c : any obj) (key : string)
  : T (any obj) :=
  fun s =>
    if is_SafeReader c then erase (iSafeGet d c key s)
    else
      match iGet d c key s with
      | Ret ((v, true), s') => Ret (Some v, s')
      | Ret ((_, false), s') => Ret (None, s')
      | Panic => Panic
      | OutOfFuel => OutOfFuel
      end.

(** The lookups of the prefix walk over [keys] from [c]. *)
Fixpoint walk (d : Dispatch obj World) (keys : Key) (c : any obj)
  : T (any obj) :=
  match keys with
  | [] => fun s => Ret (Some c, s)
  | key :: rest =>
      obind (look d c key)
        (fun v => if is_Reader v then walk d rest v
                  else fun s => Ret (None, s))
  end.

(** The lookups of a reader with prefix [kb] over a reader with prefix
    [ka]: [dx] is the table of the inner wrapper's methods, [dy] the one
    of the outer wrapper's. *)
Definition nested_lookups (dx dy : Dispatch obj World) (base : any obj)
    (ka kb : Key) : T (any obj) :=
  match kb with
  | [] => walk dx ka base
  | b :: rest =>
      obind (obind (walk dx ka base) (fun c => look dx c b))
        (fun v => if is_Reader v then walk dy rest v
                  else fun s => Ret (None, s))
  end.

(** The table that the last call goes through. *)
Definition nested_table (dx dy : Dispatch obj World) (kb : Key)
  : Dispatch obj World :=
  match kb with
  | [] => dx
  | _ => dy
  end.

End Erasure.

(** * Properties *)

Section Walk.

Context {obj World : Type} {B : Backend obj World}.
Variable d : Dispatch obj World.

Lemma firstn_segment (pre : Key) (k : string) (post : Key) :
  firstn (length pre + 1) (pre ++ k :: post) = pre ++ [k].
Proof.
  rewrite firstn_app, firstn_all2 by lia.
  replace (length pre + 1 - length pre) with 1 by lia.
  reflexivity.
Qed.

(** A walk that succeeds over [pre] reaches the same container, in the
    same state, when more segments follow. *)
Lemma base_loop_app (pr1 pr2 : PrefixedReader obj) (op : string)
    (pre rest : Key) :
  forall (i : nat) (r c : any obj) (s s1 : state obj World),
    base_loop d pr1 op i pre r s = Ret ((c, None), s1) ->
    base_loop d pr2 op i (pre ++ rest) r s =
    base_loop d pr2 op (i + length pre) rest c s1.
Proof.
  induction pre as [|key pre' IH]; intros i r c s s1 H; simpl in *.
  - unfold ret in H. inversion H; subst. now rewrite Nat.add_0_r.
  - replace (i + S (length pre')) with (S i + length pre') by lia.
    destruct (is_SafeReader r).
    + unfold bind in *.
      destruct (iSafeGet d r key s) as [[[v [e|]] s'] | | ]; try discriminate.
      destruct (is_Reader v); [now apply IH | discriminate].
    + unfold bind in *.
      destruct (iGet d r key s) as [[[v [|]] s'] | | ]; try discriminate.
      simpl in *.
      destruct (is_Reader v); [now apply IH | discriminate].
Qed.

(** The walk never returns a container together with an error. *)
Lemma base_loop_error_nil (pr : PrefixedReader obj) (op : string)
    (keys : Key) :
  forall (i : nat) (r c : any obj) (e : error obj) (s s1 : state obj World),
    base_loop d pr op i keys r s = Ret ((c, Some e), s1) -> c = Nil.
Proof.
  induction keys as [|key keys' IH]; intros i r c e s s1 H; simpl in *.
  - discriminate.
  - destruct (is_SafeReader r); unfold bind in H.
    + destruct (iSafeGet d r key s) as [[[v [e'|]] s'] | | ];
        try discriminate.
      * now inversion H.
      * destruct (is_Reader v); [eauto | now inversion H].
    + destruct (iGet d r key s) as [[[v [|]] s'] | | ]; try discriminate;
        simpl in H.
      * destruct (is_Reader v); [eauto | now inversion H].
      * now inversion H.
Qed.

(** Every error of the walk is a structured error for the operation,
    at a non-empty initial part of the wrapper's key. *)
Lemma base_loop_error_shape (pr : PrefixedReader obj) (op : string)
    (keys : Key) :
  forall (i : nat) (r c : any obj) (e : error obj) (s s1 : state obj World),
    base_loop d pr op i keys r s = Ret ((c, Some e), s1) ->
    exists j got want err,
      j < length keys /\
      e = Error op (firstn (i + j + 1) (PrefixedReader_Key pr)) got want err /\
      (want = NoWant \/ (want = WantReader /\ err = ErrUnexpectedType)).
Proof.
  induction keys as [|key keys' IH]; intros i r c e s s1 H; simpl in *.
  - discriminate.
  - assert (Hnext : forall v s',
               base_loop d pr op (S i) keys' v s' = Ret ((c, Some e), s1) ->
               exists j got want err,
                 j < S (length keys') /\
                 e = Error op (firstn (i + j + 1) (PrefixedReader_Key pr))
                       got want err /\
                 (want = NoWant \/ (want = WantReader /\ err = ErrUnexpectedType))).
    { intros v s' Hv. destruct (IH _ _ _ _ _ _ Hv) as (j & got & want & err & Hj & He & Hw).
      exists (S j), got, want, err. repeat split; [lia | | exact Hw].
      rewrite He. do 2 f_equal. lia. }
    assert (Hhere : forall got want err,
               want = NoWant \/ (want = WantReader /\ err = ErrUnexpectedType) ->
               e = Error op (firstn (i + 1) (PrefixedReader_Key pr)) got want err ->
               exists j got want err,
                 j < S (length keys') /\
                 e = Error op (firstn (i + j + 1) (PrefixedReader_Key pr))
                       got want err /\
                 (want = NoWant \/ (want = WantReader /\ err = ErrUnexpectedType))).
    { intros got want err Hw He. exists 0, got, want, err.
      repeat split; [lia | | exact Hw]. rewrite He. do 2 f_equal. lia. }
    destruct (is_SafeReader r); unfold bind in H.
    + destruct (iSafeGet d r key s) as [[[v [e'|]] s'] | | ];
        try discriminate.
      * inversion H; subst. eapply Hhere; [now left | reflexivity].
      * destruct (is_Reader v); [eauto |].
        inversion H; subst. eapply Hhere; [right; split; reflexivity | reflexivity].
    + destruct (iGet d r key s) as [[[v [|]] s'] | | ]; try discriminate;
        simpl in H.
      * destruct (is_Reader v); [eauto |].
        inversion H; subst. eapply Hhere; [right; split; reflexivity | reflexivity].
      * inversion H; subst. eapply Hhere; [now left | reflexivity].
Qed.

(** C3: the prefix walk over the empty key sequence returns the base
    container itself with a nil error, for every operation name, and
    leaves the state as it was: the world and the log of calls made on
    backing objects are unchanged, so no lookup was performed. *)
Theorem base_empty_key (r : any obj) (op : string) (s : state obj World) :
  PrefixedReader_base d (mkPrefixedReader [] r) op s = Ret ((r, None), s).
Proof. reflexivity. Qed.

(** C1: when the walk has consumed the segments [pre] and reached the
    container [c], a failed lookup of the next segment [k] in [c] makes
    the walk return an error whose Key is [pre ++ [k]] (segments 0..i
    inclusive, whatever segments follow), whose Got is [c] and whose
    cause is the SafeReader's error, or ErrNotFound for a plain Reader;
    and a value found at [k] that is no Reader makes it return
    ErrUnexpectedType at the same path, with Got the value and Want a
    Reader. *)
Theorem base_fails_at_segment (r : any obj) (pre : Key) (k : string)
    (post : Key) (op : string) (c : any obj) (s s1 : state obj World) :
  PrefixedReader_base d (mkPrefixedReader pre r) op s = Ret ((c, None), s1) ->
  (forall v e s2,
      is_SafeReader c = true ->
      iSafeGet d c k s1 = Ret ((v, Some e), s2) ->
      PrefixedReader_base d (mkPrefixedReader (pre ++ k :: post) r) op s =
      Ret ((Nil, Some (Error op (pre ++ [k]) c NoWant e)), s2)) /\
  (forall v s2,
      is_SafeReader c = false ->
      iGet d c k s1 = Ret ((v, false), s2) ->
      PrefixedReader_base d (mkPrefixedReader (pre ++ k :: post) r) op s =
      Ret ((Nil, Some (Error op (pre ++ [k]) c NoWant ErrNotFound)), s2)) /\
  (forall v s2,
      (is_SafeReader c = true /\ iSafeGet d c k s1 = Ret ((v, None), s2)) \/
      (is_SafeReader c = false /\ iGet d c k s1 = Ret ((v, true), s2)) ->
      is_Reader v = false ->
      PrefixedReader_base d (mkPrefixedReader (pre ++ k :: post) r) op s =
      Ret ((Nil, Some (Error op (pre ++ [k]) v WantReader ErrUnexpectedType)),
           s2)).
Proof.
  unfold PrefixedReader_base; simpl. intros Hpre.
  pose proof (base_loop_app _ (mkPrefixedReader (pre ++ k :: post) r) _ _
                (k :: post) _ _ _ _ _ Hpre) as Happ.
  simpl in Happ.
  repeat split.
  - intros v e s2 Hsafe Hget. rewrite Happ; simpl.
    rewrite Hsafe. unfold bind. rewrite Hget.
    now rewrite firstn_segment.
  - intros v s2 Hsafe Hget. rewrite Happ; simpl.
    rewrite Hsafe. unfold bind. rewrite Hget; simpl.
    now rewrite firstn_segment.
  - intros v s2 [[Hsafe Hget] | [Hsafe Hget]] Hv; rewrite Happ; simpl;
      rewrite Hsafe; unfold bind; rewrite Hget; simpl; rewrite Hv;
      now rewrite firstn_segment.
Qed.

End Walk.

Section FinalLookup.

Context {obj World : Type} {B : Backend obj World}.
Variable d : Dispatch obj World.

(** C4: once the prefix walk of SafeGet has reached the container [c],
    the final lookup goes through SafeGet when [c] is a SafeReader: an
    error of it is wrapped with Key = prefix ++ [key] and Got = [c], a
    value is returned as it is.  Only when [c] is no SafeReader is its
    Get called, and a false found-flag becomes an error with cause
    ErrNotFound, at the same Key and with the same Got. *)
Theorem SafeGet_final_lookup (pr : PrefixedReader obj) (key : string)
    (c : any obj) (s s1 : state obj World) :
  PrefixedReader_base d pr "Get" s = Ret ((c, None), s1) ->
  (is_SafeReader c = true ->
   (forall v e s2,
       iSafeGet d c key s1 = Ret ((v, Some e), s2) ->
       PrefixedReader_SafeGet d pr key s =
       Ret ((Nil, Some (Error "Get" (PrefixedReader_Key pr ++ [key]) c
                          NoWant e)), s2)) /\
   (forall v s2,
       iSafeGet d c key s1 = Ret ((v, None), s2) ->
       PrefixedReader_SafeGet d pr key s = Ret ((v, None), s2))) /\
  (is_SafeReader c = false ->
   (forall v s2,
       iGet d c key s1 = Ret ((v, false), s2) ->
       PrefixedReader_SafeGet d pr key s =
       Ret ((Nil, Some (Error "Get" (PrefixedReader_Key pr ++ [key]) c
                          NoWant ErrNotFound)), s2)) /\
   (forall v s2,
       iGet d c key s1 = Ret ((v, true), s2) ->
       PrefixedReader_SafeGet d pr key s = Ret ((v, None), s2))).
Proof.
  intros Hbase. unfold PrefixedReader_SafeGet, bind. rewrite Hbase.
  split; intros Hsafe; rewrite Hsafe; split; intros;
    match goal with H : _ = Ret _ |- _ => rewrite H end; reflexivity.
Qed.

(** An error of the prefix walk is what SafeGet returns. *)
Lemma SafeGet_walk_error (pr : PrefixedReader obj) (key : string)
    (c : any obj) (e : error obj) (s s1 : state obj World) :
  PrefixedReader_base d pr "Get" s = Ret ((c, Some e), s1) ->
  PrefixedReader_SafeGet d pr key s = Ret ((Nil, Some e), s1).
Proof.
  intros Hbase. unfold PrefixedReader_SafeGet, bind. now rewrite Hbase.
Qed.

End FinalLookup.

Section ReadThroughWriter.

Context {obj World : Type} {B : Backend obj World}.
Variable d : Dispatch obj World.

(** C8: when the flattened base writer is no Reader, SafeDel and SafeSet
    return at once an ErrUnexpectedType error with Want a Reader and Got
    the writer held by the wrapper, and Del and Set return false; the
    state is the one the call started in, whatever the interface methods
    do, so nothing was looked up on the backing object. *)
Theorem writer_without_Reader (pw : PrefixedWriter obj) (key : string)
    (value : any obj) (s : state obj World) :
  is_Reader (fst (PrefixedWriter_writer pw)) = false ->
  PrefixedWriter_SafeDel d pw key s =
  Ret (Some (Error "Del" (PrefixedWriter_Key pw) (PrefixedWriter_W pw)
               WantReader ErrUnexpectedType), s) /\
  PrefixedWriter_SafeSet d pw key value s =
  Ret ((false,
        Some (Error "Set" (PrefixedWriter_Key pw) (PrefixedWriter_W pw)
                WantReader ErrUnexpectedType)), s) /\
  PrefixedWriter_Del d pw key s = Ret (false, s) /\
  PrefixedWriter_Set d pw key value s = Ret (false, s).
Proof.
  intros H.
  unfold PrefixedWriter_Del, PrefixedWriter_Set, bind,
    PrefixedWriter_SafeDel, PrefixedWriter_SafeSet, PrefixedWriter_reader.
  destruct (PrefixedWriter_writer pw) as [w k]; simpl in H.
  rewrite H; simpl. repeat split.
Qed.

End ReadThroughWriter.

Section NoIntermediateContainers.

Context {obj World : Type} {B : Backend obj World}.

(** C5: over a backing store [o] that is a Reader and in which the first
    segment [a] of the prefix is absent, SafeSet (and SafeDel) under the
    prefix [a :: rest] fails with an error whose Key is exactly [[a]] and
    whose cause is ErrNotFound; the only call made on the store is the
    lookup of [a], so no Set, Del or Put reaches it and the world is the
    one the call started in. *)
Theorem SafeSet_absent_first_segment (o : obj) (a : string) (rest : Key)
    (key : string) (value : any obj) (fuel : nat) (s : state obj World) :
  implReader o = true ->
  (implSafeReader o = true ->
   forall v e,
     obj_SafeGet o a (world s) = Ret (v, Some e) ->
     cause e = ErrNotFound ->
     cause (Error "Set" [a] (Obj o) NoWant e) = ErrNotFound /\
     PrefixedWriter_SafeSet (dispatch (S fuel))
       (mkPrefixedWriter (a :: rest) (Obj o)) key value s =
     Ret ((false, Some (Error "Set" [a] (Obj o) NoWant e)),
          mkState (world s) (calls s ++ [CallSafeGet o a])) /\
     PrefixedWriter_SafeDel (dispatch (S fuel))
       (mkPrefixedWriter (a :: rest) (Obj o)) key s =
     Ret (Some (Error "Del" [a] (Obj o) NoWant e),
          mkState (world s) (calls s ++ [CallSafeGet o a]))) /\
  (implSafeReader o = false ->
   forall v,
     obj_Get o a (world s) = Ret (v, false) ->
     PrefixedWriter_SafeSet (dispatch (S fuel))
       (mkPrefixedWriter (a :: rest) (Obj o)) key value s =
     Ret ((false, Some (Error "Set" [a] (Obj o) NoWant ErrNotFound)),
          mkState (world s) (calls s ++ [CallGet o a])) /\
     PrefixedWriter_SafeDel (dispatch (S fuel))
       (mkPrefixedWriter (a :: rest) (Obj o)) key s =
     Ret (Some (Error "Del" [a] (Obj o) NoWant ErrNotFound),
          mkState (world s) (calls s ++ [CallGet o a]))).
Proof.
  intros Hreader.
  assert (Hw : PrefixedWriter_writer (mkPrefixedWriter (a :: rest) (Obj o))
               = (Obj o, a :: rest)) by reflexivity.
  split; intros Hsafe.
  - intros v e Hget Hcause. split; [exact Hcause|].
    unfold PrefixedWriter_SafeSet, PrefixedWriter_SafeDel,
      PrefixedWriter_reader.
    rewrite Hw; simpl. rewrite Hreader; simpl.
    unfold PrefixedReader_base; simpl. rewrite Hsafe.
    unfold bind, call_read. rewrite Hget. split; reflexivity.
  - intros v Hget.
    unfold PrefixedWriter_SafeSet, PrefixedWriter_SafeDel,
      PrefixedWriter_reader.
    rewrite Hw; simpl. rewrite Hreader; simpl.
    unfold PrefixedReader_base; simpl. rewrite Hsafe.
    unfold bind, call_read. rewrite Hget. split; reflexivity.
Qed.

End NoIntermediateContainers.

Section PutWalk.

Context {obj World : Type} {B : Backend obj World}.
Variable d : Dispatch obj World.

(** The Put walk that succeeds over [pre] hands the writer it reached
    to the segments that follow. *)
Lemma put_loop_app (nk1 nk2 : Key) (hint : Type_) (pre rest : Key) :
  forall (i : nat) (w wi : any obj) (s s1 : state obj World),
    put_loop d nk1 hint i pre w s = Ret ((wi, None), s1) ->
    put_loop d nk2 hint i (pre ++ rest) w s =
    put_loop d nk2 hint (i + length pre) rest wi s1.
Proof.
  induction pre as [|key pre' IH]; intros i w wi s s1 H; simpl in *.
  - unfold ret in H. inversion H; subst. now rewrite Nat.add_0_r.
  - replace (i + S (length pre')) with (S i + length pre') by lia.
    destruct (is_SafeWriter w); unfold bind in *.
    + destruct (iSafePut d w key hint s) as [[[w' [e|]] s'] | | ];
        try discriminate.
      now apply IH.
    + destruct (iPut d w key hint s) as [[w' s'] | | ]; try discriminate.
      now apply IH.
Qed.

(** C6: SafePut walks the normalized key, the key returned by the
    flattening followed by [key], from the flattened base writer.  When
    the walk has consumed the segments [pre] and reached the writer
    [wi], the next segment [seg] is put on [wi], through SafePut when
    [wi] is a SafeWriter and through Put otherwise; the writer returned
    is the one the remaining segments are put on, and is the result when
    none remains; an error of SafePut at that step is returned with Key
    = [pre ++ [seg]], the normalized key through that step. *)
Theorem SafePut_walks_normalized_key (pw : PrefixedWriter obj)
    (key : string) (hint : Type_) (pre : Key) (seg : string) (post : Key)
    (wi : any obj) (s s1 : state obj World) :
  let w0 := fst (PrefixedWriter_writer pw) in
  let normkey := snd (PrefixedWriter_writer pw) ++ [key] in
  normkey = pre ++ seg :: post ->
  put_loop d normkey hint 0 pre w0 s = Ret ((wi, None), s1) ->
  (forall w' e s2,
      is_SafeWriter wi = true ->
      iSafePut d wi seg hint s1 = Ret ((w', Some e), s2) ->
      PrefixedWriter_SafePut d pw key hint s =
      Ret ((Nil, Some (Error "Put" (pre ++ [seg]) wi NoWant e)), s2)) /\
  (forall w' s2,
      (is_SafeWriter wi = true /\
       iSafePut d wi seg hint s1 = Ret ((w', None), s2)) \/
      (is_SafeWriter wi = false /\ iPut d wi seg hint s1 = Ret (w', s2)) ->
      PrefixedWriter_SafePut d pw key hint s =
      put_loop d normkey hint (length pre + 1) post w' s2 /\
      (post = [] ->
       PrefixedWriter_SafePut d pw key hint s = Ret ((w', None), s2))).
Proof.
  intros w0 normkey Hsplit Hpre.
  assert (Hrun : PrefixedWriter_SafePut d pw key hint s =
                 put_loop d normkey hint (length pre) (seg :: post) wi s1).
  { unfold PrefixedWriter_SafePut. subst w0 normkey.
    destruct (PrefixedWriter_writer pw) as [w k]; simpl in *.
    rewrite Hsplit at 2.
    now rewrite (put_loop_app _ (k ++ [key]) _ _ (seg :: post) _ _ _ _ _ Hpre). }
  split.
  - intros w' e s2 Hsafe Hput. rewrite Hrun; simpl.
    rewrite Hsafe. unfold bind. rewrite Hput.
    now rewrite Hsplit, firstn_segment.
  - intros w' s2 Hstep.
    assert (Hnext : PrefixedWriter_SafePut d pw key hint s =
                    put_loop d normkey hint (length pre + 1) post w' s2).
    { rewrite Hrun; simpl. replace (length pre + 1) with (S (length pre)) by lia.
      destruct Hstep as [[Hsafe Hput] | [Hsafe Hput]];
        rewrite Hsafe; unfold bind; now rewrite Hput. }
    split; [exact Hnext|].
    intros ->. now rewrite Hnext.
Qed.

End PutWalk.

Section Flattening.

Context {obj : Type}.

Lemma reader_loop_bounded (n : nat) :
  forall (pr : PrefixedReader obj) (key : Key),
    (reader_depth (PrefixedReader_R pr) < n ->
     reader_loop n pr key = reader_base (PrefixedReader_R pr)) /\
    (n <= reader_depth (PrefixedReader_R pr) -> reader_loop n pr key = Nil).
Proof.
  induction n as [|n IH]; intros [k r] key; simpl.
  - split; [lia | reflexivity].
  - destruct r as [| z | o | [k' r'] | pw | [[k' r'] pw]]; simpl;
      try (split; [reflexivity | lia]).
    + destruct (IH (mkPrefixedReader k' r') (Prepend key k')) as [Hlt Hge].
      simpl in *. split; intros H; [apply Hlt | apply Hge]; lia.
    + destruct (IH (mkPrefixedReader k' r') (Prepend key k')) as [Hlt Hge].
      simpl in *. split; intros H; [apply Hlt | apply Hge]; lia.
Qed.

Lemma writer_loop_bounded (n : nat) :
  forall (pw : PrefixedWriter obj) (key : Key),
    (writer_depth (PrefixedWriter_W pw) < n ->
     writer_loop n pw key =
     (writer_base (PrefixedWriter_W pw),
      writer_key (PrefixedWriter_W pw) key)) /\
    (n <= writer_depth (PrefixedWriter_W pw) ->
     writer_loop n pw key = (Nil, [])).
Proof.
  induction n as [|n IH]; intros [k w] key; simpl.
  - split; [lia | reflexivity].
  - destruct w as [| z | o | pr | [k' w'] | [pr [k' w']]]; simpl;
      try (split; [reflexivity | lia]).
    + destruct (IH (mkPrefixedWriter k' w') (Prepend key k')) as [Hlt Hge].
      simpl in *. split; intros H; [apply Hlt | apply Hge]; lia.
    + destruct (IH (mkPrefixedWriter k' w') (Prepend key k')) as [Hlt Hge].
      simpl in *. split; intros H; [apply Hlt | apply Hge]; lia.
Qed.

(** C7: the flattening of a reader and of a writer unwraps at most 128
    wrappers and returns for every input: a chain of fewer than 128
    wrappers is unwrapped down to its innermost base (for a writer, with
    the keys of the chain prepended), and on a chain of 128 wrappers or
    more the loop stops after its 128 iterations and returns nil. *)
Theorem flattening_bounded_by_maxDepth (pr : PrefixedReader obj)
    (pw : PrefixedWriter obj) :
  maxDepth = 128 /\
  (reader_depth (PrefixedReader_R pr) < 128 ->
   PrefixedReader_reader pr = reader_base (PrefixedReader_R pr)) /\
  (128 <= reader_depth (PrefixedReader_R pr) ->
   PrefixedReader_reader pr = Nil) /\
  (writer_depth (PrefixedWriter_W pw) < 128 ->
   PrefixedWriter_writer pw =
   (writer_base (PrefixedWriter_W pw),
    writer_key (PrefixedWriter_W pw) (PrefixedWriter_Key pw))) /\
  (128 <= writer_depth (PrefixedWriter_W pw) ->
   PrefixedWriter_writer pw = (Nil, [])).
Proof.
  unfold PrefixedReader_reader, PrefixedWriter_writer.
  destruct (reader_loop_bounded maxDepth pr (PrefixedReader_Key pr))
    as [Hr1 Hr2].
  destruct (writer_loop_bounded maxDepth pw (PrefixedWriter_Key pw))
    as [Hw1 Hw2].
  change maxDepth with 128 in *.
  repeat split; assumption.
Qed.

Lemma wrap_writer_depth (n : nat) (k : string) (o : obj) :
  writer_depth (wrap_writer n k (Obj o)) = n.
Proof. induction n; simpl; congruence. Qed.

Lemma wrap_reader_depth (n : nat) (k : string) (o : obj) :
  reader_depth (wrap_reader n k (Obj o)) = n.
Proof. induction n; simpl; congruence. Qed.

(** Two nested writers flatten to the inner key followed by the outer
    one. *)
Lemma writer_nested_key (inner outer : Key) (o : obj) :
  PrefixedWriter_writer
    (mkPrefixedWriter outer (OfPrefixedWriter (mkPrefixedWriter inner (Obj o))))
  = (Obj o, inner ++ outer).
Proof. reflexivity. Qed.

End Flattening.

Section PlainPut.

Context {obj World : Type} {B : Backend obj World}.
Variable d : Dispatch obj World.

Lemma put_loop_plain (normkey : Key) (hint : Type_) (keys : Key) :
  forall (i : nat) (w : any obj) (s : state obj World),
    plain_chain d hint keys w s ->
    put_loop d normkey hint i keys w s =
    match put_chain d hint keys w s with
    | Ret (w', s') => Ret ((w', None), s')
    | Panic => Panic
    | OutOfFuel => OutOfFuel
    end.
Proof.
  induction keys as [|key rest IH]; intros i w s H; simpl in *.
  - reflexivity.
  - destruct H as [Hplain Hrest]. rewrite Hplain. unfold bind.
    destruct (iPut d w key hint s) as [[w' s'] | | ]; auto.
Qed.

(** C10: when no writer on the chain of Put calls implements SafeWriter,
    SafePut is that chain of plain Put calls followed by the return of
    its last writer with a nil error: every sub-writer is handed on
    unchecked, SafePut returns with a nil error whenever the Put calls
    return, and in no case does it return an error. *)
Theorem SafePut_plain_never_errors (pw : PrefixedWriter obj) (key : string)
    (hint : Type_) (s : state obj World) :
  let w0 := fst (PrefixedWriter_writer pw) in
  let normkey := snd (PrefixedWriter_writer pw) ++ [key] in
  plain_chain d hint normkey w0 s ->
  PrefixedWriter_SafePut d pw key hint s =
  match put_chain d hint normkey w0 s with
  | Ret (w, s') => Ret ((w, None), s')
  | Panic => Panic
  | OutOfFuel => OutOfFuel
  end /\
  forall w e s', PrefixedWriter_SafePut d pw key hint s <> Ret ((w, Some e), s').
Proof.
  intros w0 normkey H.
  assert (Heq : PrefixedWriter_SafePut d pw key hint s =
                match put_chain d hint normkey w0 s with
                | Ret (w, s') => Ret ((w, None), s')
                | Panic => Panic
                | OutOfFuel => OutOfFuel
                end).
  { unfold PrefixedWriter_SafePut. subst w0 normkey.
    destruct (PrefixedWriter_writer pw) as [w k]; simpl in *.
    now apply put_loop_plain. }
  split; [exact Heq|].
  intros w e s'. rewrite Heq.
  destruct (put_chain d hint normkey w0 s) as [[w1 s1] | | ]; discriminate.
Qed.

End PlainPut.

(** ** Budget of the recursion *)

Section Budget.

Context {obj World : Type} {B : Backend obj World}.

Lemma le_M_refl {A : Type} (m : M obj World A) : le_M m m.
Proof. intros s. now right. Qed.

Lemma le_M_bind {A C : Type} (m m' : M obj World A)
    (k k' : A -> M obj World C) :
  le_M m m' -> (forall a, le_M (k a) (k' a)) -> le_M (bind m k) (bind m' k').
Proof.
  intros Hm Hk s. unfold bind.
  destruct (Hm s) as [E | E]; rewrite E.
  - now left.
  - destruct (m' s) as [[a s'] | | ]; [apply Hk | now right | now right].
Qed.

Lemma le_read_refl (d : Dispatch obj World) : le_read d d.
Proof. repeat split; intros; apply le_M_refl. Qed.

Lemma le_M_trans {A : Type} (m1 m2 m3 : M obj World A) :
  le_M m1 m2 -> le_M m2 m3 -> le_M m1 m3.
Proof.
  intros H12 H23 s. unfold le_out.
  destruct (H12 s) as [E | E], (H23 s) as [E' | E'];
    try (left; congruence); right; congruence.
Qed.

Lemma le_read_trans (d1 d2 d3 : Dispatch obj World) :
  le_read d1 d2 -> le_read d2 d3 -> le_read d1 d3.
Proof.
  intros (G1 & S1 & L1) (G2 & S2 & L2).
  repeat split; intros; eapply le_M_trans; eauto.
Qed.

Section Monotone.

Variables d d' : Dispatch obj World.
Hypothesis Hle : le_read d d'.

Lemma base_loop_mono (pr : PrefixedReader obj) (op : string) (keys : Key) :
  forall i r, le_M (base_loop d pr op i keys r) (base_loop d' pr op i keys r).
Proof.
  destruct Hle as (HG & HS & HL).
  induction keys as [|key rest IH]; intros i r; simpl.
  - apply le_M_refl.
  - destruct (is_SafeReader r).
    + apply le_M_bind; [apply HS|]. intros [v [e|]]; [apply le_M_refl|].
      destruct (is_Reader v); [apply IH | apply le_M_refl].
    + apply le_M_bind; [apply HG|]. intros [v [|]]; simpl;
        [|apply le_M_refl].
      destruct (is_Reader v); [apply IH | apply le_M_refl].
Qed.

Lemma SafeGet_mono (pr : PrefixedReader obj) (key : string) :
  le_M (PrefixedReader_SafeGet d pr key) (PrefixedReader_SafeGet d' pr key).
Proof.
  destruct Hle as (HG & HS & HL).
  unfold PrefixedReader_SafeGet.
  apply le_M_bind; [apply base_loop_mono|].
  intros [r [e|]]; [apply le_M_refl|].
  destruct (is_SafeReader r).
  - apply le_M_bind; [apply HS|]. intros [v [e|]]; apply le_M_refl.
  - apply le_M_bind; [apply HG|]. intros [v [|]]; apply le_M_refl.
Qed.

Lemma Get_mono (pr : PrefixedReader obj) (key : string) :
  le_M (PrefixedReader_Get d pr key) (PrefixedReader_Get d' pr key).
Proof.
  unfold PrefixedReader_Get.
  apply le_M_bind; [apply SafeGet_mono|]. intros [v e]. apply le_M_refl.
Qed.

Lemma List_mono (pr : PrefixedReader obj) :
  le_M (PrefixedReader_List d pr) (PrefixedReader_List d' pr).
Proof.
  destruct Hle as (HG & HS & HL).
  unfold PrefixedReader_List.
  apply le_M_bind; [apply base_loop_mono|].
  intros [r [e|]]; [apply le_M_refl | apply HL].
Qed.

End Monotone.

(** A larger budget changes no result of a read. *)
Lemma dispatch_step (fuel : nat) :
  le_read (dispatch fuel) (dispatch (S fuel)).
Proof.
  induction fuel as [|fuel IH].
  - repeat split; intros; intros s; now left.
  - repeat split; intros; cbn [dispatch iGet iSafeGet iList];
      destruct v; try apply le_M_refl.
    + now apply Get_mono.
    + now apply Get_mono.
    + now apply SafeGet_mono.
    + now apply SafeGet_mono.
    + now apply List_mono.
    + now apply List_mono.
Qed.

Lemma dispatch_mono (fuel more : nat) :
  le_read (dispatch fuel) (dispatch (more + fuel)).
Proof.
  induction more as [|more IH]; simpl.
  - apply le_read_refl.
  - eapply le_read_trans; [exact IH | apply dispatch_step].
Qed.

End Budget.

(** One call on each side of a comparison of two runs: the same call
    is split once for both, a call made with a smaller budget is first
    replaced by the one made with the larger budget. *)
Ltac lookup_safe :=
  match goal with
  | |- le_out ?l ?r =>
      match l with
      | context [iSafeGet ?d ?v ?k ?s] =>
          match r with
          | context [iSafeGet d v k s] =>
              destruct (iSafeGet d v k s) as [[[? [?|]] ?] | | ]
          | context [iSafeGet ?d' v k s] =>
              let H := fresh "H" in
              assert (H : le_out (iSafeGet d v k s) (iSafeGet d' v k s))
                by (match goal with Hx : forall _ _, le_M _ _ |- _ => apply Hx end);
              destruct H as [H | H]; rewrite H;
              [ | destruct (iSafeGet d' v k s) as [[[? [?|]] ?] | | ]]
          end
      end
  end.

Ltac lookup_plain :=
  match goal with
  | |- le_out ?l ?r =>
      match l with
      | context [iGet ?d ?v ?k ?s] =>
          match r with
          | context [iGet d v k s] =>
              destruct (iGet d v k s) as [[[? [|]] ?] | | ]
          | context [iGet ?d' v k s] =>
              let H := fresh "H" in
              assert (H : le_out (iGet d v k s) (iGet d' v k s))
                by (match goal with Hx : forall _ _, le_M _ _ |- _ => apply Hx end);
              destruct H as [H | H]; rewrite H;
              [ | destruct (iGet d' v k s) as [[[? [|]] ?] | | ]]
          end
      end
  end.

Ltac list_keys :=
  match goal with
  | |- le_out ?l ?r =>
      match l with
      | context [iList ?d ?v ?s] =>
          match r with
          | context [iList d v s] => destruct (iList d v s) as [[? ?] | | ]
          | context [iList ?d' v s] =>
              let H := fresh "H" in
              assert (H : le_out (iList d v s) (iList d' v s))
                by (match goal with Hx : forall _, le_M _ _ |- _ => apply Hx end);
              destruct H as [H | H]; rewrite H;
              [ | destruct (iList d' v s) as [[? ?] | | ]]
          end
      end
  end.

Ltac assertion_step :=
  match goal with
  | E : is_SafeReader ?v = _ |- context [is_SafeReader ?v] => rewrite E
  | E : is_Reader ?v = _ |- context [is_Reader ?v] => rewrite E
  | |- context [if is_SafeReader ?v then _ else _] =>
      destruct (is_SafeReader v) eqn:?
  | |- context [if is_Reader ?v then _ else _] =>
      destruct (is_Reader v) eqn:?
  end.

Ltac compare_runs :=
  repeat (unfold bind, ret; simpl;
          first [ solve [left; reflexivity] | solve [right; reflexivity]
                | assertion_step | lookup_safe | lookup_plain | list_keys ]).

Section NestedPrefix.

Context {obj World : Type} {B : Backend obj World}.

Variable base : any obj.
Variables a b : string.

Lemma Get_is_found (d : Dispatch obj World) (pr : PrefixedReader obj)
    (key : string) (s : state obj World) :
  PrefixedReader_Get d pr key s = found (PrefixedReader_SafeGet d pr key s).
Proof.
  unfold PrefixedReader_Get, bind, found.
  now destruct (PrefixedReader_SafeGet d pr key s) as [[[v e] s'] | | ].
Qed.

Section Tables.

(** [d1] is the table of the caller, [d0] the one that the methods of
    the inner wrapper call through. *)
Variables d0 d1 d2 : Dispatch obj World.
Hypothesis Hinner :
  forall key s,
    iSafeGet d1 (OfPrefixedReader (PrefixReader base [a])) key s =
    PrefixedReader_SafeGet d0 (PrefixReader base [a]) key s.

Lemma nested_Get_below (key : string) (s : state obj World) :
  le_read d0 d2 -> le_read d1 d2 ->
  le_out (PrefixedReader_Get d1 (nested_reader base a b) key s)
         (PrefixedReader_Get d2 (inner_first base a b) key s).
Proof.
  intros (G02 & S02 & L02) (G12 & S12 & L12).
  unfold PrefixReader in Hinner.
  unfold PrefixedReader_Get, PrefixedReader_SafeGet, PrefixedReader_base,
    nested_reader, inner_first, PrefixReader; simpl.
  unfold bind. rewrite Hinner.
  unfold PrefixedReader_SafeGet, PrefixedReader_base, bind, ret; simpl.
  compare_runs.
Qed.

Lemma nested_Get_above (key : string) (s : state obj World) :
  le_read d2 d0 -> le_read d2 d1 ->
  le_out (PrefixedReader_Get d2 (inner_first base a b) key s)
         (PrefixedReader_Get d1 (nested_reader base a b) key s).
Proof.
  intros (G20 & S20 & L20) (G21 & S21 & L21).
  unfold PrefixReader in Hinner.
  unfold PrefixedReader_Get, PrefixedReader_SafeGet, PrefixedReader_base,
    nested_reader, inner_first, PrefixReader; simpl.
  unfold bind. rewrite Hinner.
  unfold PrefixedReader_SafeGet, PrefixedReader_base, bind, ret; simpl.
  compare_runs.
Qed.

Lemma nested_List_below (s : state obj World) :
  le_read d0 d2 -> le_read d1 d2 ->
  le_out (PrefixedReader_List d1 (nested_reader base a b) s)
         (PrefixedReader_List d2 (inner_first base a b) s).
Proof.
  intros (G02 & S02 & L02) (G12 & S12 & L12).
  unfold PrefixReader in Hinner.
  unfold PrefixedReader_List, PrefixedReader_base,
    nested_reader, inner_first, PrefixReader; simpl.
  unfold bind. rewrite Hinner.
  unfold PrefixedReader_SafeGet, PrefixedReader_base, bind, ret; simpl.
  compare_runs.
Qed.

Lemma nested_List_above (s : state obj World) :
  le_read d2 d0 -> le_read d2 d1 ->
  le_out (PrefixedReader_List d2 (inner_first base a b) s)
         (PrefixedReader_List d1 (nested_reader base a b) s).
Proof.
  intros (G20 & S20 & L20) (G21 & S21 & L21).
  unfold PrefixReader in Hinner.
  unfold PrefixedReader_List, PrefixedReader_base,
    nested_reader, inner_first, PrefixReader; simpl.
  unfold bind. rewrite Hinner.
  unfold PrefixedReader_SafeGet, PrefixedReader_base, bind, ret; simpl.
  compare_runs.
Qed.

End Tables.

Lemma found_not_spent
    (r : outcome ((any obj * option (error obj)) * state obj World)) :
  r <> OutOfFuel <-> found r <> OutOfFuel.
Proof. destruct r as [[[v e] s] | | ]; simpl; split; congruence. Qed.

Lemma nested_Get_inner_first (key : string) (s : state obj World)
    (r : outcome ((any obj * bool) * state obj World)) :
  evaluates (fun d => PrefixedReader_Get d (nested_reader base a b) key) s r <->
  evaluates (fun d => PrefixedReader_Get d (inner_first base a b) key) s r.
Proof.
  split; intros [fuel [Hrun Hr]].
  - destruct fuel as [|fuel]; [now rewrite <- Hrun in Hr|].
    exists (S fuel). split; [|exact Hr].
    destruct (nested_Get_below (dispatch fuel) (dispatch (S fuel))
                (dispatch (S fuel)) (fun _ _ => eq_refl) key s
                (dispatch_step fuel) (le_read_refl _)) as [E | E];
      congruence.
  - exists (S fuel). split; [|exact Hr].
    destruct (nested_Get_above (dispatch fuel) (dispatch (S fuel))
                (dispatch fuel) (fun _ _ => eq_refl) key s
                (le_read_refl _) (dispatch_step fuel)) as [E | E];
      congruence.
Qed.

Lemma nested_List_inner_first (s : state obj World)
    (r : outcome (list string * state obj World)) :
  evaluates (fun d => PrefixedReader_List d (nested_reader base a b)) s r <->
  evaluates (fun d => PrefixedReader_List d (inner_first base a b)) s r.
Proof.
  split; intros [fuel [Hrun Hr]].
  - destruct fuel as [|fuel]; [now rewrite <- Hrun in Hr|].
    exists (S fuel). split; [|exact Hr].
    destruct (nested_List_below (dispatch fuel) (dispatch (S fuel))
                (dispatch (S fuel)) (fun _ _ => eq_refl) s
                (dispatch_step fuel) (le_read_refl _)) as [E | E];
      congruence.
  - exists (S fuel). split; [|exact Hr].
    destruct (nested_List_above (dispatch fuel) (dispatch (S fuel))
                (dispatch fuel) (fun _ _ => eq_refl) s
                (le_read_refl _) (dispatch_step fuel)) as [E | E];
      congruence.
Qed.

(** If SafeGet on one wrapper ends with [r] and Get on the two wrappers
    ends alike, SafeGet on the other wrapper ends with the same value,
    state and success. *)
Lemma SafeGet_follows_Get (pr pr' : PrefixedReader obj) (key : string)
    (s : state obj World) :
  (forall r,
      evaluates (fun d => PrefixedReader_Get d pr key) s r ->
      evaluates (fun d => PrefixedReader_Get d pr' key) s r) ->
  forall r,
    evaluates (fun d => PrefixedReader_SafeGet d pr key) s r ->
    exists r',
      evaluates (fun d => PrefixedReader_SafeGet d pr' key) s r' /\
      found r' = found r.
Proof.
  intros HGet r [fuel [Hrun Hr]].
  destruct (HGet (found r)) as [fuel' [Hrun' Hr']].
  { exists fuel. split; [|now apply found_not_spent].
    now rewrite Get_is_found, Hrun. }
  rewrite Get_is_found in Hrun'.
  exists (PrefixedReader_SafeGet (dispatch fuel') pr' key s).
  split; [|exact Hrun'].
  exists fuel'. split; [reflexivity|].
  apply found_not_spent. now rewrite Hrun'.
Qed.

(** C2, as the code has it: the prefix [[b]] over a reader wrapped with
    the prefix [[a]] gives, for every base reader, key and state, the
    same Get results and the same List results as the single wrapper
    with the prefix [[a; b]] over the base: the inner prefix comes
    first.  SafeGet on the two ends with the same value, state and
    success or failure. *)
Theorem nested_prefix_is_inner_first (key : string) (s : state obj World) :
  (forall r,
      evaluates (fun d => PrefixedReader_Get d (nested_reader base a b) key) s r <->
      evaluates (fun d => PrefixedReader_Get d (inner_first base a b) key) s r) /\
  (forall r,
      evaluates (fun d => PrefixedReader_List d (nested_reader base a b)) s r <->
      evaluates (fun d => PrefixedReader_List d (inner_first base a b)) s r) /\
  (forall r,
      evaluates
        (fun d => PrefixedReader_SafeGet d (nested_reader base a b) key) s r ->
      exists r',
        evaluates
          (fun d => PrefixedReader_SafeGet d (inner_first base a b) key) s r' /\
        found r' = found r) /\
  (forall r,
      evaluates
        (fun d => PrefixedReader_SafeGet d (inner_first base a b) key) s r ->
      exists r',
        evaluates
          (fun d => PrefixedReader_SafeGet d (nested_reader base a b) key) s r' /\
        found r' = found r).
Proof.
  split; [|split; [|split]].
  - intros r. apply nested_Get_inner_first.
  - intros r. apply nested_List_inner_first.
  - apply SafeGet_follows_Get. intros r. apply nested_Get_inner_first.
  - apply SafeGet_follows_Get. intros r. apply nested_Get_inner_first.
Qed.

End NestedPrefix.

(** ** The Map container *)

Section MapLookup.

Variable obj : Type.
Variable tryMake : option reflect.govalue -> any obj.
Variable of_Value : reflect.Value -> any obj.

(** A key that the map lacks makes SafeGet panic: [MapIndex] yields the
    zero Value, on which [IsZero] panics. *)
Lemma Map_SafeGet_absent (ro : bool)
    (entries : list (string * reflect.govalue)) (key : string) :
  reflect.lookup key entries = None ->
  Map_SafeGet tryMake of_Value
    (mkMap (reflect.Val ro (reflect.GMap (Some entries)))) key = Panic.
Proof. intros H. unfold Map_SafeGet; simpl. now rewrite H. Qed.

(** A key that holds a non-zero integer is returned with a nil error. *)
Lemma Map_SafeGet_nonzero (entries : list (string * reflect.govalue))
    (key : string) (n : Z) :
  reflect.lookup key entries = Some (reflect.GInt n) ->
  n <> 0%Z ->
  Map_SafeGet tryMake of_Value
    (mkMap (reflect.ValueOf (reflect.GMap (Some entries)))) key =
  Ret (tryMake (Some (reflect.GInt n)), None).
Proof.
  intros H Hn. unfold Map_SafeGet; simpl. rewrite H; simpl.
  apply Z.eqb_neq in Hn. now rewrite Hn.
Qed.

(** C9, on the code: over [map[string]int{"a": 0}] the key ["a"] is
    present, yet SafeGet returns an error with cause ErrNotFound for it,
    and for the absent key ["b"] SafeGet does not return an error but
    panics. *)
Theorem Map_SafeGet_zero_is_not_found :
  let m := mkMap (reflect.ValueOf
                    (reflect.GMap (Some [("a", reflect.GInt 0)]))) in
  Map_has m "a" = true /\
  Map_SafeGet tryMake of_Value m "a" =
  Ret (Nil, Some (Error "Get" ["a"] Nil NoWant ErrNotFound)) /\
  Map_has m "b" = false /\
  Map_SafeGet tryMake of_Value m "b" = Panic.
Proof. repeat split. Qed.

End MapLookup.

(** ** Runs over the in-memory store *)

Section Runs.

Import MemStore.

(** Section 8 of the specification: [Get("x")] under [["a"; "b"]]. *)
Example Get_nested_value :
  PrefixedReader_Get (dispatch 1) (PrefixReader (Obj plain) ["a"; "b"]) "x"
    (start nested) =
  Ret ((Int 1, true),
       mkState nested
         [CallGet plain "a"; CallGet (child plain "a") "b";
          CallGet (child (child plain "a") "b") "x"]).
Proof. reflexivity. Qed.

(** A segment that resolves to an integer. *)
Example SafeGet_through_scalar :
  PrefixedReader_SafeGet (dispatch 1)
    (PrefixReader (Obj plain) ["a"; "b"; "c"]) "x" (start scalar) =
  Ret ((Nil, Some (Error "Get" ["a"] (Int 7) WantReader ErrUnexpectedType)),
       mkState scalar [CallGet plain "a"]).
Proof. reflexivity. Qed.

(** A plain Put that has no sub-writer to return: at the last segment
    SafePut returns the nil writer with a nil error, before the last
    segment the next Put is called on the nil writer. *)
Example SafePut_nil_writer_last :
  PrefixedWriter_SafePut (dispatch 1) (PrefixWriter (Obj plain) []) "a"
    TypeMap (start scalar) =
  Ret ((Nil, None), mkState scalar [CallPut plain "a" TypeMap]).
Proof. reflexivity. Qed.

Example SafePut_nil_writer_inner :
  PrefixedWriter_SafePut (dispatch 1) (PrefixWriter (Obj plain) ["a"]) "b"
    TypeMap (start scalar) = Panic.
Proof. reflexivity. Qed.

Lemma base_fails_at_segment_witness :
  PrefixedReader_base (dispatch 1)
    (mkPrefixedReader (["a"] ++ "zz" :: ["q"]) (Obj plain)) "Get"
    (start nested) =
  Ret ((Nil, Some (Error "Get" (["a"] ++ ["zz"]) (Obj (child plain "a"))
                     NoWant ErrNotFound)),
       mkState nested [CallGet plain "a"; CallGet (child plain "a") "zz"]).
Proof.
  assert (Hpre : PrefixedReader_base (dispatch 1)
                   (mkPrefixedReader ["a"] (Obj plain)) "Get" (start nested)
                 = Ret ((Obj (child plain "a"), None),
                        mkState nested [CallGet plain "a"]))
    by reflexivity.
  exact (proj1 (proj2 (base_fails_at_segment (dispatch 1) (Obj plain) ["a"]
                         "zz" ["q"] "Get" _ _ _ Hpre))
           Nil _ eq_refl eq_refl).
Defined.

Lemma SafeGet_final_lookup_witness :
  PrefixedReader_SafeGet (dispatch 1) (mkPrefixedReader ["a"; "b"] (Obj safe))
    "y" (start nested) =
  Ret ((Nil, Some (Error "Get" ["a"; "b"; "y"]
                     (Obj (child (child safe "a") "b")) NoWant
                     (Error "Get" ["y"] Nil NoWant ErrNotFound))),
       mkState nested
         [CallSafeGet safe "a"; CallSafeGet (child safe "a") "b";
          CallSafeGet (child (child safe "a") "b") "y"]).
Proof.
  assert (Hbase : PrefixedReader_base (dispatch 1)
                    (mkPrefixedReader ["a"; "b"] (Obj safe)) "Get"
                    (start nested)
                  = Ret ((Obj (child (child safe "a") "b"), None),
                         mkState nested
                           [CallSafeGet safe "a";
                            CallSafeGet (child safe "a") "b"]))
    by reflexivity.
  exact (proj1 (proj1 (SafeGet_final_lookup (dispatch 1) _ "y" _ _ _ Hbase)
                  eq_refl) Nil _ _ eq_refl).
Defined.

Lemma writer_without_Reader_witness :
  PrefixedWriter_SafeSet (dispatch 1)
    (mkPrefixedWriter ["a"] (Int 3)) "b" (Int 1) (start empty) =
  Ret ((false, Some (Error "Set" ["a"] (Int 3) WantReader ErrUnexpectedType)),
       start empty).
Proof.
  exact (proj1 (proj2 (writer_without_Reader (dispatch 1)
                         (mkPrefixedWriter ["a"] (Int 3)) "b" (Int 1)
                         (start empty) eq_refl))).
Defined.

Lemma SafeSet_absent_first_segment_witness :
  PrefixedWriter_SafeSet (dispatch 1) (mkPrefixedWriter ["a"] (Obj plain))
    "b" (Int 1) (start empty) =
  Ret ((false, Some (Error "Set" ["a"] (Obj plain) NoWant ErrNotFound)),
       mkState empty [CallGet plain "a"]).
Proof.
  exact (proj1 (proj2 (SafeSet_absent_first_segment plain "a" [] "b" (Int 1)
                         0 (start empty) eq_refl) eq_refl Nil eq_refl)).
Defined.

Lemma SafePut_walks_normalized_key_witness :
  PrefixedWriter_SafePut (dispatch 1)
    (mkPrefixedWriter ["p"]
       (OfPrefixedWriter (mkPrefixedWriter ["a"] (Obj safe)))) "q" TypeMap
    (start scalar) =
  Ret ((Nil, Some (Error "Put" ([] ++ ["a"]) (Obj safe) NoWant
                     (Error "Put" ["a"] Nil NoWant ErrUnexpectedType))),
       mkState scalar [CallSafePut safe "a" TypeMap]).
Proof.
  exact (proj1 (SafePut_walks_normalized_key (dispatch 1)
                  (mkPrefixedWriter ["p"]
                     (OfPrefixedWriter (mkPrefixedWriter ["a"] (Obj safe))))
                  "q" TypeMap [] "a" ["p"; "q"] (Obj safe) (start scalar)
                  (start scalar) eq_refl eq_refl)
           Nil _ _ eq_refl eq_refl).
Defined.

Lemma flattening_bounded_by_maxDepth_witness :
  PrefixedWriter_writer
    (mkPrefixedWriter ["z"] (wrap_writer 127 "k" (Obj plain))) =
  (Obj plain, repeat "k" 127 ++ ["z"]) /\
  PrefixedWriter_writer
    (mkPrefixedWriter ["z"] (wrap_writer 128 "k" (Obj plain))) = (Nil, []) /\
  PrefixedReader_reader
    (mkPrefixedReader ["z"] (wrap_reader 127 "k" (Obj plain))) = Obj plain /\
  PrefixedReader_reader
    (mkPrefixedReader ["z"] (wrap_reader 128 "k" (Obj plain))) = Nil.
Proof.
  pose proof (flattening_bounded_by_maxDepth
                (mkPrefixedReader ["z"] (wrap_reader 127 "k" (Obj plain)))
                (mkPrefixedWriter ["z"] (wrap_writer 127 "k" (Obj plain))))
    as (_ & Hr & _ & Hw & _).
  pose proof (flattening_bounded_by_maxDepth
                (mkPrefixedReader ["z"] (wrap_reader 128 "k" (Obj plain)))
                (mkPrefixedWriter ["z"] (wrap_writer 128 "k" (Obj plain))))
    as (_ & _ & Hr' & _ & Hw').
  split; [|split; [|split]].
  - rewrite Hw; [vm_compute; reflexivity | vm_compute; lia].
  - apply Hw'. vm_compute. lia.
  - rewrite Hr; [vm_compute; reflexivity | vm_compute; lia].
  - apply Hr'. vm_compute. lia.
Defined.

Lemma SafePut_plain_never_errors_witness :
  PrefixedWriter_SafePut (dispatch 1) (mkPrefixedWriter ["a"] (Obj plain))
    "b" TypeMap (start empty) =
  Ret ((Obj (child (child plain "a") "b"), None),
       mkState (Node [("a", Node [("b", Node [])])])
         [CallPut plain "a" TypeMap; CallPut (child plain "a") "b" TypeMap]).
Proof.
  exact (proj1 (SafePut_plain_never_errors (dispatch 1)
                  (mkPrefixedWriter ["a"] (Obj plain)) "b" TypeMap
                  (start empty) (conj eq_refl (conj eq_refl I)))).
Defined.

(** The errors of SafeGet on the nested reader and on the single wrapper
    differ: the nested one has the outer segment as its Key and wraps the
    error of the inner wrapper. *)
Example SafeGet_nested_error :
  PrefixedReader_SafeGet (dispatch 2) (nested_reader (Obj plain) "a" "b") "x"
    (start empty) =
  Ret ((Nil,
        Some (Error "Get" ["b"]
                (OfPrefixedReader (PrefixReader (Obj plain) ["a"])) NoWant
                (Error "Get" ["a"] (Obj plain) NoWant ErrNotFound))),
       mkState empty [CallGet plain "a"]) /\
  PrefixedReader_SafeGet (dispatch 2) (inner_first (Obj plain) "a" "b") "x"
    (start empty) =
  Ret ((Nil, Some (Error "Get" ["a"] (Obj plain) NoWant ErrNotFound)),
       mkState empty [CallGet plain "a"]).
Proof. split; reflexivity. Qed.

(** C2, as it is stated: over the store [{a: {b: {x: 1}}}] the prefix
    [["b"]] over a reader with the prefix [["a"]] finds [x], and the
    single wrapper with the prefix [["b"; "a"]] does not. *)
Lemma nested_prefix_is_not_outer_first :
  ~ (forall r,
        evaluates
          (fun d => PrefixedReader_Get d (nested_reader (Obj plain) "a" "b") "x")
          (start nested) r <->
        evaluates
          (fun d => PrefixedReader_Get d (outer_first (Obj plain) "a" "b") "x")
          (start nested) r).
Proof.
  intros H.
  destruct (proj1 (H (PrefixedReader_Get (dispatch 2)
                        (nested_reader (Obj plain) "a" "b") "x"
                        (start nested))))
    as [fuel [Hrun _]].
  - exists 2. split; [reflexivity | discriminate].
  - destruct fuel as [|fuel]; [discriminate|].
    vm_compute in Hrun. discriminate.
Qed.

End Runs.

(** * Further properties of the prefix layer *)

Section WalkErrors.

Context {obj World : Type} {B : Backend obj World}.
Variable d : Dispatch obj World.

Lemma firstn_within (pre post : Key) (n : nat) :
  n <= length pre -> firstn n (pre ++ post) = firstn n pre.
Proof.
  intros H. rewrite firstn_app.
  replace (n - length pre) with 0 by lia. simpl. apply app_nil_r.
Qed.

Lemma base_loop_failure_extends (r0 : any obj) (op : string) (post : Key)
    (keys : Key) :
  forall (seen : Key) (r x : any obj) (e : error obj) (s s1 : state obj World),
    base_loop d (mkPrefixedReader (seen ++ keys) r0) op (length seen) keys r s
    = Ret ((x, Some e), s1) ->
    base_loop d (mkPrefixedReader ((seen ++ keys) ++ post) r0) op (length seen)
      (keys ++ post) r s
    = Ret ((x, Some e), s1).
Proof.
  induction keys as [|key rest IH]; intros seen r x e s s1 H; simpl in *.
  - discriminate.
  - assert (Hk : firstn (length seen + 1) ((seen ++ key :: rest) ++ post) =
                 firstn (length seen + 1) (seen ++ key :: rest)).
    { apply firstn_within. rewrite length_app; simpl. lia. }
    assert (Hrest : forall v s',
               base_loop d (mkPrefixedReader (seen ++ key :: rest) r0) op
                 (S (length seen)) rest v s' = Ret ((x, Some e), s1) ->
               base_loop d (mkPrefixedReader ((seen ++ key :: rest) ++ post) r0)
                 op (S (length seen)) (rest ++ post) v s' =
               Ret ((x, Some e), s1)).
    { intros v s' Hv.
      specialize (IH (seen ++ [key]) v x e s' s1).
      rewrite length_app in IH; simpl in IH.
      replace (length seen + 1) with (S (length seen)) in IH by lia.
      rewrite <- app_assoc in IH; simpl in IH. now apply IH. }
    rewrite Hk.
    destruct (is_SafeReader r); unfold bind in *.
    + destruct (iSafeGet d r key s) as [[[v [e'|]] s'] | | ];
        try discriminate; [exact H|].
      destruct (is_Reader v); [now apply Hrest | exact H].
    + destruct (iGet d r key s) as [[[v [|]] s'] | | ]; try discriminate;
        simpl in *; [|exact H].
      destruct (is_Reader v); [now apply Hrest | exact H].
Qed.

(** X1: a prefix walk that fails inside the prefix [pre] fails with the
    same error and in the same state when further segments [post] follow:
    the segments after the failing one have no effect on the error. *)
Theorem base_failure_extends (r : any obj) (pre post : Key) (op : string)
    (x : any obj) (e : error obj) (s s1 : state obj World) :
  PrefixedReader_base d (mkPrefixedReader pre r) op s = Ret ((x, Some e), s1) ->
  PrefixedReader_base d (mkPrefixedReader (pre ++ post) r) op s =
  Ret ((x, Some e), s1).
Proof.
  unfold PrefixedReader_base; simpl. intros H.
  exact (base_loop_failure_extends r op post pre [] r x e s s1 H).
Qed.

(** X2: every error that SafeGet returns comes with the nil value and is
    a structured error for the operation "Get" whose Key is a non-empty
    initial part of the prefix followed by the key: the failing path, at
    most the prefix plus the key. *)
Theorem SafeGet_error_shape (pr : PrefixedReader obj) (key : string)
    (v : any obj) (e : error obj) (s s' : state obj World) :
  PrefixedReader_SafeGet d pr key s = Ret ((v, Some e), s') ->
  v = Nil /\
  exists n got want err,
    1 <= n <= length (PrefixedReader_Key pr) + 1 /\
    e = Error "Get" (firstn n (PrefixedReader_Key pr ++ [key])) got want err.
Proof.
  unfold PrefixedReader_SafeGet, PrefixedReader_base, bind. intros H.
  destruct (base_loop d pr "Get" 0 (PrefixedReader_Key pr)
              (PrefixedReader_R pr) s) as [[[c [e0|]] s0] | | ] eqn:Hwalk;
    try discriminate.
  - inversion H; subst. split; [reflexivity|].
    destruct (base_loop_error_shape d _ _ _ _ _ _ _ _ _ Hwalk)
      as (j & got & want & err & Hj & He & _).
    exists (j + 1), got, want, err. split; [lia|].
    rewrite He. simpl. now rewrite firstn_within by lia.
  - assert (Hfull : firstn (length (PrefixedReader_Key pr) + 1)
                      (PrefixedReader_Key pr ++ [key]) =
                    PrefixedReader_Key pr ++ [key]).
    { apply firstn_all2. rewrite length_app; simpl. lia. }
    destruct (is_SafeReader c).
    + destruct (iSafeGet d c key s0) as [[[v' [e'|]] s1] | | ];
        try discriminate.
      inversion H; subst. split; [reflexivity|].
      exists (length (PrefixedReader_Key pr) + 1), c, NoWant, e'.
      split; [lia | now rewrite Hfull].
    + destruct (iGet d c key s0) as [[[v' [|]] s1] | | ]; try discriminate;
        simpl in H; try discriminate.
      inversion H; subst. split; [reflexivity|].
      exists (length (PrefixedReader_Key pr) + 1), c, NoWant, ErrNotFound.
      split; [lia | now rewrite Hfull].
Qed.

End WalkErrors.

Section ReadsOnly.

Context {obj World : Type} {B : Backend obj World}.

Lemma reads_only_refl (s : state obj World) : reads_only s s.
Proof. split; [reflexivity|]. exists []. now rewrite app_nil_r. Qed.

Lemma reads_only_trans (s1 s2 s3 : state obj World) :
  reads_only s1 s2 -> reads_only s2 s3 -> reads_only s1 s3.
Proof.
  intros [Hw1 (l1 & Hc1 & Hr1)] [Hw2 (l2 & Hc2 & Hr2)].
  split; [congruence|]. exists (l1 ++ l2).
  rewrite Hc2, Hc1, app_assoc, forallb_app, Hr1, Hr2. now split.
Qed.

Lemma call_read_reads_only {A : Type} (c : call obj)
    (f : World -> outcome A) (s s' : state obj World) (a : A) :
  is_read_call c = true ->
  call_read c f s = Ret (a, s') -> reads_only s s'.
Proof.
  intros Hc. unfold call_read.
  destruct (f (world s)); try discriminate.
  intros H; inversion H; subst. split; [reflexivity|].
  exists [c]. simpl. now rewrite Hc.
Qed.

Section Table.

Variable d : Dispatch obj World.
Hypothesis Hd : read_table d.

Lemma base_loop_reads_only (pr : PrefixedReader obj) (op : string)
    (keys : Key) :
  forall i r x s s',
    base_loop d pr op i keys r s = Ret (x, s') -> reads_only s s'.
Proof.
  destruct Hd as (HG & HS & HL).
  induction keys as [|key rest IH]; intros i r x s s' H; simpl in H.
  - inversion H; subst. apply reads_only_refl.
  - destruct (is_SafeReader r); unfold bind in H.
    + destruct (iSafeGet d r key s) as [[[v [e|]] s0] | | ] eqn:E;
        try discriminate; apply HS in E.
      * inversion H; subst. exact E.
      * destruct (is_Reader v).
        -- eapply reads_only_trans; [exact E | eauto].
        -- inversion H; subst. exact E.
    + destruct (iGet d r key s) as [[[v [|]] s0] | | ] eqn:E;
        try discriminate; apply HG in E; simpl in H.
      * destruct (is_Reader v).
        -- eapply reads_only_trans; [exact E | eauto].
        -- inversion H; subst. exact E.
      * inversion H; subst. exact E.
Qed.

Lemma SafeGet_reads_only (pr : PrefixedReader obj) (key : string) x s s' :
  PrefixedReader_SafeGet d pr key s = Ret (x, s') -> reads_only s s'.
Proof.
  destruct Hd as (HG & HS & HL).
  unfold PrefixedReader_SafeGet, PrefixedReader_base, bind. intros H.
  destruct (base_loop d pr "Get" 0 (PrefixedReader_Key pr)
              (PrefixedReader_R pr) s) as [[[c [e|]] s0] | | ] eqn:Hwalk;
    try discriminate; apply base_loop_reads_only in Hwalk.
  - inversion H; subst. exact Hwalk.
  - destruct (is_SafeReader c).
    + destruct (iSafeGet d c key s0) as [[[v [e|]] s1] | | ] eqn:E;
        try discriminate; apply HS in E; inversion H; subst;
        eapply reads_only_trans; eauto.
    + destruct (iGet d c key s0) as [[[v [|]] s1] | | ] eqn:E;
        try discriminate; apply HG in E; simpl in H; inversion H; subst;
        eapply reads_only_trans; eauto.
Qed.

Lemma Get_reads_only (pr : PrefixedReader obj) (key : string) x s s' :
  PrefixedReader_Get d pr key s = Ret (x, s') -> reads_only s s'.
Proof.
  unfold PrefixedReader_Get, bind. intros H.
  destruct (PrefixedReader_SafeGet d pr key s) as [[[v e] s0] | | ] eqn:E;
    try discriminate.
  inversion H; subst. eapply SafeGet_reads_only; eauto.
Qed.

Lemma List_reads_only (pr : PrefixedReader obj) x s s' :
  PrefixedReader_List d pr s = Ret (x, s') -> reads_only s s'.
Proof.
  destruct Hd as (HG & HS & HL).
  unfold PrefixedReader_List, PrefixedReader_base, bind. intros H.
  destruct (base_loop d pr "List" 0 (PrefixedReader_Key pr)
              (PrefixedReader_R pr) s) as [[[c [e|]] s0] | | ] eqn:Hwalk;
    try discriminate; apply base_loop_reads_only in Hwalk.
  - inversion H; subst. exact Hwalk.
  - apply HL in H. eapply reads_only_trans; eauto.
Qed.

End Table.

Lemma dispatch_read_table (fuel : nat) : read_table (dispatch fuel).
Proof.
  induction fuel as [|fuel IH].
  - split; [|split]; intros; discriminate.
  - split; [|split]; intros v; intros;
      cbn [dispatch iGet iSafeGet iList] in *;
      destruct v; try discriminate;
      try (eapply call_read_reads_only; [|eassumption]; reflexivity);
      eauto using Get_reads_only, SafeGet_reads_only, List_reads_only.
Qed.

(** X3: Get, SafeGet and List of a PrefixedReader never write: whatever
    the reader wraps and whatever values the containers hand back, a call
    that returns leaves the world as it was and has made only Get, SafeGet
    and List calls on backing objects. *)
Theorem reads_leave_world_unchanged (fuel : nat) (pr : PrefixedReader obj)
    (key : string) (s : state obj World) :
  (forall x s', PrefixedReader_SafeGet (dispatch fuel) pr key s = Ret (x, s') ->
                reads_only s s') /\
  (forall x s', PrefixedReader_Get (dispatch fuel) pr key s = Ret (x, s') ->
                reads_only s s') /\
  (forall x s', PrefixedReader_List (dispatch fuel) pr s = Ret (x, s') ->
                reads_only s s').
Proof.
  pose proof (dispatch_read_table fuel) as Hd.
  split; [|split]; intros x s' H;
    [eapply SafeGet_reads_only | eapply Get_reads_only
    | eapply List_reads_only]; eauto.
Qed.

(** X4: when the prefix of a PrefixedWriter does not resolve, because the
    walk fails at any segment, SafeSet and SafeDel return the error of the
    walk as it is, Set and Del return false, and nothing was written: the
    world is unchanged and only read calls were made. *)
Theorem unresolved_prefix_writes_nothing (fuel : nat)
    (pw : PrefixedWriter obj) (pr : PrefixedReader obj) (key : string)
    (value x : any obj) (e : error obj) (s s1 : state obj World) :
  (PrefixedWriter_reader pw "Set" = (pr, None) ->
   PrefixedReader_base (dispatch fuel) pr "Set" s = Ret ((x, Some e), s1) ->
   PrefixedWriter_SafeSet (dispatch fuel) pw key value s =
   Ret ((false, Some e), s1) /\
   PrefixedWriter_Set (dispatch fuel) pw key value s = Ret (false, s1) /\
   reads_only s s1) /\
  (PrefixedWriter_reader pw "Del" = (pr, None) ->
   PrefixedReader_base (dispatch fuel) pr "Del" s = Ret ((x, Some e), s1) ->
   PrefixedWriter_SafeDel (dispatch fuel) pw key s = Ret (Some e, s1) /\
   PrefixedWriter_Del (dispatch fuel) pw key s = Ret (false, s1) /\
   reads_only s s1).
Proof.
  split; intros Hreader Hwalk.
  - assert (Hsafe : PrefixedWriter_SafeSet (dispatch fuel) pw key value s =
                    Ret ((false, Some e), s1)).
    { unfold PrefixedWriter_SafeSet. rewrite Hreader.
      unfold bind. now rewrite Hwalk. }
    split; [exact Hsafe|]. split.
    + unfold PrefixedWriter_Set, bind. now rewrite Hsafe.
    + eapply base_loop_reads_only; [apply dispatch_read_table | exact Hwalk].
  - assert (Hsafe : PrefixedWriter_SafeDel (dispatch fuel) pw key s =
                    Ret (Some e, s1)).
    { unfold PrefixedWriter_SafeDel. rewrite Hreader.
      unfold bind. now rewrite Hwalk. }
    split; [exact Hsafe|]. split.
    + unfold PrefixedWriter_Del, bind. now rewrite Hsafe.
    + eapply base_loop_reads_only; [apply dispatch_read_table | exact Hwalk].
Qed.

End ReadsOnly.

Section WriteDispatch.

Context {obj World : Type} {B : Backend obj World}.
Variable d : Dispatch obj World.

(** X5: once the prefix of SafeDel has resolved to the container [c], the
    key is deleted through SafeDel when [c] is a SafeWriter, and an error
    of it is returned wrapped with the Key of the wrapper followed by the
    key; through Del when [c] is only a Writer, a false result becoming an
    error with cause ErrNotFound; and when [c] is no Writer at all, SafeDel
    makes no further call and returns ErrUnexpectedType with Got the
    container and Want a Writer. *)
Theorem SafeDel_final_dispatch (pw : PrefixedWriter obj)
    (pr : PrefixedReader obj) (key : string) (c : any obj)
    (s s1 : state obj World) :
  PrefixedWriter_reader pw "Del" = (pr, None) ->
  PrefixedReader_base d pr "Del" s = Ret ((c, None), s1) ->
  (is_SafeWriter c = true ->
   (forall e s2,
       iSafeDel d c key s1 = Ret (Some e, s2) ->
       PrefixedWriter_SafeDel d pw key s =
       Ret (Some (Error "Del" (PrefixedWriter_Key pw ++ [key]) Nil NoWant e),
            s2)) /\
   (forall s2,
       iSafeDel d c key s1 = Ret (None, s2) ->
       PrefixedWriter_SafeDel d pw key s = Ret (None, s2))) /\
  (is_SafeWriter c = false -> is_Writer c = true ->
   (forall s2,
       iDel d c key s1 = Ret (false, s2) ->
       PrefixedWriter_SafeDel d pw key s =
       Ret (Some (Error "Del" (PrefixedWriter_Key pw ++ [key]) Nil NoWant
                    ErrNotFound), s2)) /\
   (forall s2,
       iDel d c key s1 = Ret (true, s2) ->
       PrefixedWriter_SafeDel d pw key s = Ret (None, s2))) /\
  (is_SafeWriter c = false -> is_Writer c = false ->
   PrefixedWriter_SafeDel d pw key s =
   Ret (Some (Error "Del" (PrefixedWriter_Key pw ++ [key]) c WantWriter
                ErrUnexpectedType), s1)).
Proof.
  intros Hreader Hwalk.
  unfold PrefixedWriter_SafeDel. rewrite Hreader. unfold bind.
  rewrite Hwalk.
  split; [|split].
  - intros Hsafe. rewrite Hsafe. split; intros; 
      match goal with H : _ = Ret _ |- _ => now rewrite H end.
  - intros Hsafe Hplain. rewrite Hsafe, Hplain. split; intros;
      match goal with H : _ = Ret _ |- _ => now rewrite H end.
  - intros Hsafe Hplain. now rewrite Hsafe, Hplain.
Qed.

(** X6: once the prefix of SafeSet has resolved to the container [c], the
    value is set through SafeSet when [c] is a SafeWriter, an error of it
    being returned with false and wrapped with the Key of the wrapper
    followed by the key; through Set when [c] is only a Writer, whose
    result is returned with a nil error even when it is false; and when
    [c] is no Writer at all, SafeSet makes no further call and returns
    ErrUnexpectedType with Got the container and Want a Writer. *)
Theorem SafeSet_final_dispatch (pw : PrefixedWriter obj)
    (pr : PrefixedReader obj) (key : string) (value c : any obj)
    (s s1 : state obj World) :
  PrefixedWriter_reader pw "Set" = (pr, None) ->
  PrefixedReader_base d pr "Set" s = Ret ((c, None), s1) ->
  (is_SafeWriter c = true ->
   (forall ok e s2,
       iSafeSet d c key value s1 = Ret ((ok, Some e), s2) ->
       PrefixedWriter_SafeSet d pw key value s =
       Ret ((false,
             Some (Error "Set" (PrefixedWriter_Key pw ++ [key]) Nil NoWant e)),
            s2)) /\
   (forall ok s2,
       iSafeSet d c key value s1 = Ret ((ok, None), s2) ->
       PrefixedWriter_SafeSet d pw key value s = Ret ((ok, None), s2))) /\
  (is_SafeWriter c = false -> is_Writer c = true ->
   forall ok s2,
     iSet d c key value s1 = Ret (ok, s2) ->
     PrefixedWriter_SafeSet d pw key value s = Ret ((ok, None), s2)) /\
  (is_SafeWriter c = false -> is_Writer c = false ->
   PrefixedWriter_SafeSet d pw key value s =
   Ret ((false,
         Some (Error "Set" (PrefixedWriter_Key pw ++ [key]) c WantWriter
                 ErrUnexpectedType)), s1)).
Proof.
  intros Hreader Hwalk.
  unfold PrefixedWriter_SafeSet. rewrite Hreader. unfold bind.
  rewrite Hwalk.
  split; [|split].
  - intros Hsafe. rewrite Hsafe. split; intros;
      match goal with H : _ = Ret _ |- _ => now rewrite H end.
  - intros Hsafe Hplain ok s2 H. now rewrite Hsafe, Hplain, H.
  - intros Hsafe Hplain. now rewrite Hsafe, Hplain.
Qed.

(** X7: SafeSet never reports success together with an error: whenever
    it returns an error its boolean result is false, so Set is false on
    every failure. *)
Theorem SafeSet_error_is_false (pw : PrefixedWriter obj) (key : string)
    (value : any obj) (ok : bool) (e : error obj) (s s' : state obj World) :
  PrefixedWriter_SafeSet d pw key value s = Ret ((ok, Some e), s') ->
  ok = false /\ PrefixedWriter_Set d pw key value s = Ret (false, s').
Proof.
  intros H.
  assert (Hok : ok = false).
  { revert H. unfold PrefixedWriter_SafeSet.
    destruct (PrefixedWriter_reader pw "Set") as [pr [e0|]].
    - intros H; now inversion H.
    - unfold bind.
      destruct (PrefixedReader_base d pr "Set" s) as [[[c [e1|]] s1] | | ];
        try discriminate.
      + intros H; now inversion H.
      + destruct (is_SafeWriter c).
        * destruct (iSafeSet d c key value s1) as [[[ok' [e2|]] s2] | | ];
            try discriminate.
          intros H; now inversion H.
        * destruct (is_Writer c).
          -- destruct (iSet d c key value s1) as [[ok' s2] | | ];
               discriminate.
          -- intros H; now inversion H. }
  split; [exact Hok|].
  unfold PrefixedWriter_Set, bind. rewrite H. now rewrite Hok.
Qed.

Lemma put_loop_error_shape (normkey : Key) (hint : Type_) (keys : Key) :
  forall (i : nat) (w x : any obj) (e : error obj) (s s' : state obj World),
    put_loop d normkey hint i keys w s = Ret ((x, Some e), s') ->
    x = Nil /\
    exists j sw err,
      j < length keys /\ is_SafeWriter sw = true /\
      e = Error "Put" (firstn (i + j + 1) normkey) sw NoWant err.
Proof.
  induction keys as [|key rest IH]; intros i w x e s s' H; simpl in H.
  - discriminate.
  - assert (Hnext : forall w' s0,
               put_loop d normkey hint (S i) rest w' s0 = Ret ((x, Some e), s') ->
               x = Nil /\
               exists j sw err,
                 j < length (key :: rest) /\ is_SafeWriter sw = true /\
                 e = Error "Put" (firstn (i + j + 1) normkey) sw NoWant err).
    { intros w' s0 Hw. destruct (IH _ _ _ _ _ _ Hw) as (Hx & j & sw & err & Hj & Hsw & He).
      split; [exact Hx|]. exists (S j), sw, err. simpl.
      repeat split; [lia | exact Hsw |]. rewrite He. do 2 f_equal. lia. }
    destruct (is_SafeWriter w) eqn:Hsafe; unfold bind in H.
    + destruct (iSafePut d w key hint s) as [[[w' [e'|]] s0] | | ];
        try discriminate; [|now apply Hnext with w' s0].
      inversion H; subst. split; [reflexivity|].
      exists 0, w, e'. simpl. repeat split; [lia | exact Hsafe |].
      do 2 f_equal. lia.
    + destruct (iPut d w key hint s) as [[w' s0] | | ]; try discriminate.
      now apply Hnext with w' s0.
Qed.

(** X8: every error that SafePut returns comes with the nil writer and is
    a structured error for the operation "Put" whose Key is a non-empty
    initial part of the normalized key and whose Got is a SafeWriter: only
    a SafePut call makes SafePut fail; and Put then returns the nil
    writer. *)
Theorem SafePut_error_shape (pw : PrefixedWriter obj) (key : string)
    (hint : Type_) (w : any obj) (e : error obj) (s s' : state obj World) :
  PrefixedWriter_SafePut d pw key hint s = Ret ((w, Some e), s') ->
  w = Nil /\
  PrefixedWriter_Put d pw key hint s = Ret (Nil, s') /\
  exists n sw err,
    1 <= n <= length (snd (PrefixedWriter_writer pw) ++ [key]) /\
    is_SafeWriter sw = true /\
    e = Error "Put" (firstn n (snd (PrefixedWriter_writer pw) ++ [key])) sw
          NoWant err.
Proof.
  intros H.
  assert (Hshape : w = Nil /\
                   exists j sw err,
                     j < length (snd (PrefixedWriter_writer pw) ++ [key]) /\
                     is_SafeWriter sw = true /\
                     e = Error "Put"
                           (firstn (0 + j + 1)
                              (snd (PrefixedWriter_writer pw) ++ [key]))
                           sw NoWant err).
  { revert H. unfold PrefixedWriter_SafePut.
    destruct (PrefixedWriter_writer pw) as [w0 k]; simpl.
    apply put_loop_error_shape. }
  destruct Hshape as (Hw & j & sw & err & Hj & Hsw & He).
  split; [exact Hw|]. split.
  - unfold PrefixedWriter_Put, bind. rewrite H. now rewrite Hw.
  - exists (j + 1), sw, err. repeat split; [lia | lia | exact Hsw | exact He].
Qed.

End WriteDispatch.

Section FlatResult.

Context {obj : Type}.

Lemma reader_base_flat (v : any obj) : reader_depth (reader_base v) = 0.
Proof.
  revert v.
  fix IH 1. intros [| z | o | [k r] | pw | [[k r] pw]]; simpl;
    try reflexivity; apply IH.
Qed.

Lemma writer_base_flat (v : any obj) : writer_depth (writer_base v) = 0.
Proof.
  revert v.
  fix IH 1. intros [| z | o | pr | [k w] | [pr [k w]]]; simpl;
    try reflexivity; apply IH.
Qed.

(** X9: what the flattening returns is never itself a wrapper of the
    kind it unwraps: the reader returned by [reader] is no PrefixedReader
    or Prefixed, the writer returned by [writer] no PrefixedWriter or
    Prefixed, for every nesting however deep. *)
Theorem flattening_result_is_no_wrapper (pr : PrefixedReader obj)
    (pw : PrefixedWriter obj) :
  reader_depth (PrefixedReader_reader pr) = 0 /\
  writer_depth (fst (PrefixedWriter_writer pw)) = 0.
Proof.
  unfold PrefixedReader_reader, PrefixedWriter_writer. split.
  - destruct (reader_loop_bounded maxDepth pr (PrefixedReader_Key pr))
      as [Hlt Hge].
    destruct (Nat.lt_ge_cases (reader_depth (PrefixedReader_R pr)) maxDepth)
      as [Hd | Hd].
    + rewrite (Hlt Hd). apply reader_base_flat.
    + now rewrite (Hge Hd).
  - destruct (writer_loop_bounded maxDepth pw (PrefixedWriter_Key pw))
      as [Hlt Hge].
    destruct (Nat.lt_ge_cases (writer_depth (PrefixedWriter_W pw)) maxDepth)
      as [Hd | Hd].
    + rewrite (Hlt Hd). apply writer_base_flat.
    + now rewrite (Hge Hd).
Qed.

End FlatResult.

Section NestedKeys.

Context {obj World : Type} {B : Backend obj World}.

Lemma erase_base_loop (d : Dispatch obj World) (pr : PrefixedReader obj)
    (op : string) (keys : Key) :
  forall i c s, erase (base_loop d pr op i keys c s) = walk d keys c s.
Proof.
  induction keys as [|key rest IH]; intros i c s; simpl.
  - reflexivity.
  - unfold obind, look, bind. destruct (is_SafeReader c).
    + destruct (iSafeGet d c key s) as [[[v [e|]] s'] | | ]; simpl; auto.
      destruct (is_Reader v); [apply IH | reflexivity].
    + destruct (iGet d c key s) as [[[v [|]] s'] | | ]; simpl; auto.
      destruct (is_Reader v); [apply IH | reflexivity].
Qed.

Lemma erase_SafeGet (d : Dispatch obj World) (pr : PrefixedReader obj)
    (key : string) (s : state obj World) :
  erase (PrefixedReader_SafeGet d pr key s) =
  obind (walk d (PrefixedReader_Key pr) (PrefixedReader_R pr))
    (fun c => look d c key) s.
Proof.
  unfold PrefixedReader_SafeGet, PrefixedReader_base, bind, obind.
  rewrite <- (erase_base_loop d pr "Get" _ 0).
  destruct (base_loop d pr "Get" 0 (PrefixedReader_Key pr)
              (PrefixedReader_R pr) s) as [[[c [e|]] s0] | | ]; simpl; auto.
  unfold look. destruct (is_SafeReader c).
  - now destruct (iSafeGet d c key s0) as [[[v [e|]] s1] | | ].
  - now destruct (iGet d c key s0) as [[[v [|]] s1] | | ].
Qed.

Lemma Get_to_found (d : Dispatch obj World) (pr : PrefixedReader obj)
    (key : string) (s : state obj World) :
  PrefixedReader_Get d pr key s =
  to_found (erase (PrefixedReader_SafeGet d pr key s)).
Proof.
  unfold PrefixedReader_Get, PrefixedReader_SafeGet, bind.
  destruct (PrefixedReader_base d pr "Get" s) as [[[c [e|]] s0] | | ];
    simpl; auto.
  destruct (is_SafeReader c).
  - now destruct (iSafeGet d c key s0) as [[[v [e|]] s1] | | ].
  - now destruct (iGet d c key s0) as [[[v [|]] s1] | | ].
Qed.

Lemma List_to_list (d : Dispatch obj World) (pr : PrefixedReader obj)
    (s : state obj World) :
  PrefixedReader_List d pr s =
  to_list d (walk d (PrefixedReader_Key pr) (PrefixedReader_R pr) s).
Proof.
  unfold PrefixedReader_List, PrefixedReader_base, bind.
  rewrite <- (erase_base_loop d pr "List" _ 0).
  now destruct (base_loop d pr "List" 0 (PrefixedReader_Key pr)
                  (PrefixedReader_R pr) s) as [[[c [e|]] s0] | | ].
Qed.

Lemma walk_app (d : Dispatch obj World) (ka kb : Key) :
  forall c s, walk d (ka ++ kb) c s = obind (walk d ka c) (walk d kb) s.
Proof.
  induction ka as [|k ka IH]; intros c s; simpl.
  - reflexivity.
  - unfold obind.
    destruct (look d c k s) as [[[v|] s'] | | ]; auto.
    destruct (is_Reader v); [apply IH | reflexivity].
Qed.

(** The order of budgets on erased runs. *)
Lemma obind_mono {A C : Type} (m m' : T A) (k k' : A -> T C)
    (s : state obj World) :
  le_out (m s) (m' s) ->
  (forall a s', le_out (k a s') (k' a s')) ->
  le_out (obind m k s) (obind m' k' s).
Proof.
  intros [E | E] Hk; unfold obind; rewrite E.
  - now left.
  - destruct (m' s) as [[[a|] s'] | | ]; [apply Hk | | | ]; now right.
Qed.

Lemma erase_mono {A : Type}
    (r r' : outcome ((A * option (error obj)) * state obj World)) :
  le_out r r' -> le_out (erase r) (erase r').
Proof. intros [E | E]; rewrite E; [now left | now right]. Qed.

Lemma to_found_mono (r r' : outcome (option (any obj) * state obj World)) :
  le_out r r' -> le_out (to_found r) (to_found r').
Proof. intros [E | E]; rewrite E; [now left | now right]. Qed.

Section Tables.

Variables dx dy dx' dy' : Dispatch obj World.
Hypothesis Hx : le_read dx dx'.
Hypothesis Hy : le_read dy dy'.

Lemma look_mono (d d' : Dispatch obj World) (c : any obj) (key : string)
    (s : state obj World) :
  le_read d d' -> le_out (look d c key s) (look d' c key s).
Proof.
  intros (HG & HS & HL). unfold look. destruct (is_SafeReader c).
  - apply erase_mono, HS.
  - destruct (HG c key s) as [E | E]; rewrite E; [now left | now right].
Qed.

Lemma walk_mono (d d' : Dispatch obj World) (keys : Key) :
  le_read d d' -> forall c s, le_out (walk d keys c s) (walk d' keys c s).
Proof.
  intros Hd. induction keys as [|key rest IH]; intros c s; simpl.
  - now right.
  - apply obind_mono; [now apply look_mono|].
    intros v s'. destruct (is_Reader v); [apply IH | now right].
Qed.

Lemma nested_table_mono (kb : Key) :
  le_read (nested_table dx dy kb) (nested_table dx' dy' kb).
Proof. destruct kb; assumption. Qed.

Lemma nested_lookups_mono (base : any obj) (ka kb : Key)
    (s : state obj World) :
  le_out (nested_lookups dx dy base ka kb s)
         (nested_lookups dx' dy' base ka kb s).
Proof.
  destruct kb as [|b rest]; simpl.
  - now apply walk_mono.
  - apply obind_mono.
    + apply obind_mono; [now apply walk_mono|].
      intros c s'. now apply look_mono.
    + intros v s'. destruct (is_Reader v); [now apply walk_mono | now right].
Qed.

Lemma to_list_mono (d d' : Dispatch obj World)
    (r r' : outcome (option (any obj) * state obj World)) :
  le_read d d' -> le_out r r' -> le_out (to_list d r) (to_list d' r').
Proof.
  intros (HG & HS & HL) [E | E]; rewrite E; [now left|].
  destruct r' as [[[c|] s'] | | ]; simpl; [apply HL | | | ]; now right.
Qed.

End Tables.

Section Inner.

Variable base : any obj.
Variables ka kb : Key.

(** [d1] is the table of the caller, [d0] the one that the methods of
    the inner wrapper call through. *)
Variables d0 d1 : Dispatch obj World.
Hypothesis Hinner_SafeGet :
  forall key s,
    iSafeGet d1 (OfPrefixedReader (mkPrefixedReader ka base)) key s =
    PrefixedReader_SafeGet d0 (mkPrefixedReader ka base) key s.
Hypothesis Hinner_List :
  forall s,
    iList d1 (OfPrefixedReader (mkPrefixedReader ka base)) s =
    PrefixedReader_List d0 (mkPrefixedReader ka base) s.

Lemma look_inner (key : string) (s : state obj World) :
  look d1 (OfPrefixedReader (mkPrefixedReader ka base)) key s =
  obind (walk d0 ka base) (fun c => look d0 c key) s.
Proof.
  unfold look; simpl. rewrite Hinner_SafeGet. now rewrite erase_SafeGet.
Qed.

Lemma nested_walk (s : state obj World) :
  kb <> [] ->
  walk d1 kb (OfPrefixedReader (mkPrefixedReader ka base)) s =
  nested_lookups d0 d1 base ka kb s.
Proof.
  destruct kb as [|b rest]; [congruence|]. intros _. simpl.
  unfold obind. rewrite look_inner. reflexivity.
Qed.

Lemma nested_SafeGet_lookups (key : string) (s : state obj World) :
  erase (PrefixedReader_SafeGet d1 (nested_keys base ka kb) key s) =
  obind (nested_lookups d0 d1 base ka kb)
    (fun c => look (nested_table d0 d1 kb) c key) s.
Proof.
  rewrite erase_SafeGet. unfold nested_keys, PrefixReader; simpl.
  destruct kb as [|b rest] eqn:Hkb.
  - simpl. unfold obind. rewrite look_inner. reflexivity.
  - unfold obind. rewrite <- Hkb, nested_walk by congruence.
    now rewrite Hkb.
Qed.

Lemma nested_List_lookups (s : state obj World) :
  PrefixedReader_List d1 (nested_keys base ka kb) s =
  to_list (nested_table d0 d1 kb) (nested_lookups d0 d1 base ka kb s).
Proof.
  rewrite List_to_list. unfold nested_keys, PrefixReader; simpl.
  destruct kb as [|b rest] eqn:Hkb.
  - simpl. rewrite Hinner_List. apply List_to_list.
  - rewrite <- Hkb, nested_walk by congruence. now rewrite Hkb.
Qed.

End Inner.

Lemma joined_walk (d : Dispatch obj World) (base : any obj) (ka kb : Key)
    (s : state obj World) :
  walk d (ka ++ kb) base s = nested_lookups d d base ka kb s.
Proof.
  destruct kb as [|b rest]; simpl.
  - now rewrite app_nil_r.
  - rewrite walk_app. simpl. unfold obind.
    now destruct (walk d ka base s) as [[[c|] s'] | | ].
Qed.

Lemma joined_SafeGet_lookups (d : Dispatch obj World) (base : any obj)
    (ka kb : Key) (key : string) (s : state obj World) :
  erase (PrefixedReader_SafeGet d (joined_keys base ka kb) key s) =
  obind (nested_lookups d d base ka kb)
    (fun c => look (nested_table d d kb) c key) s.
Proof.
  rewrite erase_SafeGet. unfold joined_keys, PrefixReader; simpl.
  unfold obind. rewrite joined_walk. now destruct kb.
Qed.

Lemma joined_List_lookups (d : Dispatch obj World) (base : any obj)
    (ka kb : Key) (s : state obj World) :
  PrefixedReader_List d (joined_keys base ka kb) s =
  to_list (nested_table d d kb) (nested_lookups d d base ka kb s).
Proof.
  rewrite List_to_list. unfold joined_keys, PrefixReader; simpl.
  rewrite joined_walk. now destruct kb.
Qed.

End NestedKeys.

Section NestedKeysTied.

Context {obj World : Type} {B : Backend obj World}.

Variable base : any obj.
Variables ka kb : Key.

Lemma nested_keys_spent (key : string) (s : state obj World) :
  PrefixedReader_Get spent (nested_keys base ka kb) key s = OutOfFuel /\
  PrefixedReader_List spent (nested_keys base ka kb) s = OutOfFuel.
Proof. destruct kb; split; reflexivity. Qed.

Lemma nested_keys_below (fuel : nat) (key : string) (s : state obj World) :
  le_out (PrefixedReader_Get (dispatch (S fuel)) (nested_keys base ka kb) key s)
         (PrefixedReader_Get (dispatch (S fuel)) (joined_keys base ka kb) key s)
  /\
  le_out (PrefixedReader_List (dispatch (S fuel)) (nested_keys base ka kb) s)
         (PrefixedReader_List (dispatch (S fuel)) (joined_keys base ka kb) s).
Proof.
  pose proof (dispatch_step (B := B) fuel) as Hstep.
  pose proof (le_read_refl (dispatch (B := B) (S fuel))) as Hrefl.
  split.
  - rewrite !Get_to_found. apply to_found_mono.
    rewrite (nested_SafeGet_lookups base ka kb (dispatch fuel) (dispatch (S fuel))
               (fun _ _ => eq_refl)).
    rewrite joined_SafeGet_lookups.
    apply obind_mono; [now apply nested_lookups_mono|].
    intros c s'. apply look_mono. now apply nested_table_mono.
  - rewrite (nested_List_lookups base ka kb (dispatch fuel) (dispatch (S fuel))
               (fun _ _ => eq_refl) (fun _ => eq_refl)).
    rewrite joined_List_lookups.
    apply to_list_mono; [now apply nested_table_mono|].
    now apply nested_lookups_mono.
Qed.

Lemma nested_keys_above (fuel : nat) (key : string) (s : state obj World) :
  le_out (PrefixedReader_Get (dispatch fuel) (joined_keys base ka kb) key s)
         (PrefixedReader_Get (dispatch (S fuel)) (nested_keys base ka kb) key s)
  /\
  le_out (PrefixedReader_List (dispatch fuel) (joined_keys base ka kb) s)
         (PrefixedReader_List (dispatch (S fuel)) (nested_keys base ka kb) s).
Proof.
  pose proof (dispatch_step (B := B) fuel) as Hstep.
  pose proof (le_read_refl (dispatch (B := B) fuel)) as Hrefl.
  split.
  - rewrite !Get_to_found. apply to_found_mono.
    rewrite (nested_SafeGet_lookups base ka kb (dispatch fuel) (dispatch (S fuel))
               (fun _ _ => eq_refl)).
    rewrite joined_SafeGet_lookups.
    apply obind_mono; [now apply nested_lookups_mono|].
    intros c s'. apply look_mono. now apply nested_table_mono.
  - rewrite (nested_List_lookups base ka kb (dispatch fuel) (dispatch (S fuel))
               (fun _ _ => eq_refl) (fun _ => eq_refl)).
    rewrite joined_List_lookups.
    apply to_list_mono; [now apply nested_table_mono|].
    now apply nested_lookups_mono.
Qed.

(** X10: prefixes compose by concatenation, inner prefix first, whatever
    their lengths: a PrefixedReader with the prefix [kb] over a
    PrefixedReader with the prefix [ka] over a base reader gives, for
    every key and state, the same Get results and the same List results
    as the single PrefixedReader with the prefix [ka ++ kb] over the
    base. *)
Theorem nested_keys_are_joined (key : string) (s : state obj World) :
  (forall r,
      evaluates (fun d => PrefixedReader_Get d (nested_keys base ka kb) key) s r <->
      evaluates (fun d => PrefixedReader_Get d (joined_keys base ka kb) key) s r) /\
  (forall r,
      evaluates (fun d => PrefixedReader_List d (nested_keys base ka kb)) s r <->
      evaluates (fun d => PrefixedReader_List d (joined_keys base ka kb)) s r).
Proof.
  split; intros r; split; intros [fuel [Hrun Hr]].
  - destruct fuel as [|fuel].
    { simpl in Hrun. rewrite (proj1 (nested_keys_spent key s)) in Hrun.
      congruence. }
    exists (S fuel). split; [|exact Hr].
    destruct (proj1 (nested_keys_below fuel key s)) as [E | E]; congruence.
  - exists (S fuel). split; [|exact Hr].
    destruct (proj1 (nested_keys_above fuel key s)) as [E | E]; congruence.
  - destruct fuel as [|fuel].
    { simpl in Hrun. rewrite (proj2 (nested_keys_spent key s)) in Hrun.
      congruence. }
    exists (S fuel). split; [|exact Hr].
    destruct (proj2 (nested_keys_below fuel key s)) as [E | E]; congruence.
  - exists (S fuel). split; [|exact Hr].
    destruct (proj2 (nested_keys_above fuel key s)) as [E | E]; congruence.
Qed.

End NestedKeysTied.

(** * Properties of the containers *)

Section Conversions.

Local Open Scope Z_scope.

Lemma maxUint64_value : strconv.maxUint64 = 18446744073709551615.
Proof. reflexivity. Qed.

Lemma ParseUint_loop_digit (c : ascii) (k : Z) (rest : string) (n : Z) :
  strconv.digit c = Some k ->
  0 <= k <= 9 -> 0 <= n -> n * 10 + k <= strconv.maxUint64 ->
  strconv.ParseUint_loop (String c rest) n =
  strconv.ParseUint_loop rest (n * 10 + k).
Proof.
  intros Hc Hk Hn Hmax. simpl. rewrite Hc.
  rewrite maxUint64_value in *.
  change (18446744073709551615 / 10 + 1) with 1844674407370955162.
  destruct (Z.leb_spec 1844674407370955162 n); [lia|].
  destruct (Z.ltb_spec 18446744073709551615 (n * 10 + k)); [lia|].
  reflexivity.
Qed.

Lemma of_uint_acc_ge (d : uint) :
  forall a : nat, (a <= Nat.of_uint_acc d a)%nat.
Proof.
  induction d; intros a; cbn [Nat.of_uint_acc]; try lia;
    match goal with
    | |- (_ <= Nat.of_uint_acc _ ?x)%nat =>
        specialize (IHd x); rewrite Nat.tail_mul_spec in *; lia
    end.
Qed.

Lemma ParseUint_loop_uint (d : uint) :
  forall a : nat,
    Z.of_nat (Nat.of_uint_acc d a) <= strconv.maxUint64 ->
    strconv.ParseUint_loop (NilEmpty.string_of_uint d) (Z.of_nat a) =
    inl (Z.of_nat (Nat.of_uint_acc d a)).
Proof.
  induction d; intros a Hmax;
    cbn [NilEmpty.string_of_uint Nat.of_uint_acc] in *; try reflexivity.
  all: match type of Hmax with
       | Z.of_nat (Nat.of_uint_acc _ ?x) <= _ =>
           pose proof (of_uint_acc_ge d x) as Hge;
           pose proof (IHd x Hmax) as IH
       end.
  all: rewrite Nat.tail_mul_spec in *.
  all: erewrite ParseUint_loop_digit; [ | reflexivity | | | ].
  all: repeat match goal with
       | |- context [Z.of_nat (nat_of_ascii ?c) - 48] =>
           let v := eval vm_compute in (Z.of_nat (nat_of_ascii c) - 48) in
           change (Z.of_nat (nat_of_ascii c) - 48) with v
       end.
  all: rewrite ?maxUint64_value in *; try lia.
  all: rewrite <- IH; f_equal; lia.
Qed.

Lemma to_uint_nonnil (n : nat) : Nat.to_uint n <> Decimal.Nil.
Proof.
  rewrite <- (Unsigned.of_to n) at 1. rewrite Unsigned.to_of.
  apply DecimalFacts.unorm_nonnil.
Qed.

(** The text that Itoa gives for an index is read back by Atoi. *)
Lemma Atoi_Itoa (n : Z) :
  0 <= n < 2 ^ 63 -> strconv.Atoi (strconv.Itoa n) = inl n.
Proof.
  intros Hn.
  assert (Hit : strconv.Itoa n =
                NilEmpty.string_of_uint (Nat.to_uint (Z.to_nat n)))
    by (destruct n; [reflexivity | reflexivity | lia]).
  assert (Hloop : strconv.ParseUint_loop
                    (NilEmpty.string_of_uint (Nat.to_uint (Z.to_nat n))) 0 =
                  inl n).
  { change 0 with (Z.of_nat 0).
    rewrite ParseUint_loop_uint; fold (Nat.of_uint (Nat.to_uint (Z.to_nat n)));
      rewrite Unsigned.of_to; [f_equal; lia|].
    rewrite maxUint64_value. lia. }
  pose proof (to_uint_nonnil (Z.to_nat n)) as Hnil.
  rewrite Hit. revert Hloop Hnil.
  generalize (Nat.to_uint (Z.to_nat n)). intros d Hloop Hnil.
  unfold strconv.Atoi.
  destruct d; try congruence; cbn [NilEmpty.string_of_uint] in *;
    unfold strconv.ParseInt;
    repeat match goal with
      | |- context [Ascii.eqb ?c ?c'] => change (Ascii.eqb c c') with false
      end;
    cbv iota; unfold strconv.ParseUint; rewrite Hloop; cbn [negb andb];
    (destruct (Z.leb_spec (2 ^ 63) n); [lia | reflexivity]).
Qed.

End Conversions.

Section SliceLookup.

Variable obj : Type.
Variable tryMake : option reflect.govalue -> any obj.
Variable of_Value : reflect.Value -> any obj.

Lemma Interface_accessible (x : reflect.govalue) :
  exists y, reflect.Interface (reflect.Val false x) = Ret y.
Proof. destruct x; eexists; reflexivity. Qed.

Lemma Slice_Index_in_range (s : Slice) (n : Z) :
  (0 <= n < Slice_Len s)%Z ->
  exists x,
    nth_error (Slice_elems s) (Z.to_nat n) = Some x /\
    Slice_Index s n = Ret (reflect.Val (Slice_ro s) x).
Proof.
  intros Hn. unfold Slice_Index, Slice_Len in *.
  destruct (Z.ltb_spec n 0); [lia|].
  destruct (Z.leb_spec (Z.of_nat (length (Slice_elems s))) n); [lia|]; simpl.
  destruct (nth_error (Slice_elems s) (Z.to_nat n)) as [x|] eqn:E.
  - now exists x.
  - apply nth_error_None in E. lia.
Qed.


Lemma Slice_Get_in_range (s : Slice) (n : Z) (x : reflect.govalue)
    (y : option reflect.govalue) (key : string) :
  Slice_ro s = false ->
  strconv.Atoi key = inl n -> (0 <= n < Slice_Len s)%Z ->
  nth_error (Slice_elems s) (Z.to_nat n) = Some x ->
  reflect.Interface (reflect.Val false x) = Ret y ->
  Slice_SafeGet tryMake of_Value s key = Ret (tryMake y, None).
Proof.
  intros Hro Hatoi Hn Hx Hy. unfold Slice_SafeGet. rewrite Hatoi.
  destruct (Z.ltb_spec n 0); [lia|].
  destruct (Z.leb_spec (Slice_Len s) n); [lia|]; simpl.
  destruct (Slice_Index_in_range s n Hn) as (x' & Hx' & Hidx).
  rewrite Hidx. rewrite Hx in Hx'. inversion Hx'; subst x'.
  rewrite Hro. unfold reflect.CanInterface. cbn [negb]. now rewrite Hy.
Qed.

(** X12: Get of a Slice finds a key exactly when the slice is accessible
    and the key is the decimal text of an index within bounds, with an
    optional sign and leading zeros as Atoi reads them; the value found
    is the element at that index. *)
Theorem Slice_Get_found_iff (s : Slice) (key : string) (v : any obj) :
  Slice_Get tryMake of_Value s key = Ret (v, true) <->
  Slice_ro s = false /\
  exists n x y,
    strconv.Atoi key = inl n /\ (0 <= n < Slice_Len s)%Z /\
    nth_error (Slice_elems s) (Z.to_nat n) = Some x /\
    reflect.Interface (reflect.Val false x) = Ret y /\ v = tryMake y.
Proof.
  unfold Slice_Get, Slice_SafeGet. split.
  - destruct (strconv.Atoi key) as [n | e]; [|discriminate].
    destruct ((n <? 0)%Z || (Slice_Len s <=? n)%Z) eqn:Hrange; [discriminate|].
    apply orb_false_iff in Hrange. destruct Hrange as [H0 Hlen].
    apply Z.ltb_ge in H0. apply Z.leb_gt in Hlen.
    destruct (Slice_Index_in_range s n) as (x & Hx & Hidx); [lia|].
    rewrite Hidx. unfold reflect.CanInterface.
    destruct (Slice_ro s); cbn [negb]; [discriminate|].
    destruct (Interface_accessible x) as [y Hy]. rewrite Hy.
    intros H; inversion H; subst. split; [reflexivity|].
    exists n, x, y. repeat split; auto; lia.
  - intros (Hro & n & x & y & Hatoi & Hn & Hx & Hy & ->).
    fold (Slice_SafeGet tryMake of_Value s key).
    now rewrite (Slice_Get_in_range s n x y key Hro Hatoi Hn Hx Hy).
Qed.

Lemma ListTo_loop_spec (n : nat) :
  forall (i : nat) (keys : list string),
    ListTo_loop n (Z.of_nat i) keys =
    keys ++ map (fun j => strconv.Itoa (Z.of_nat j)) (seq i n).
Proof.
  induction n as [|n IH]; intros i keys; simpl.
  - now rewrite app_nil_r.
  - replace (Z.of_nat i + 1)%Z with (Z.of_nat (S i)) by lia.
    rewrite IH, <- app_assoc. reflexivity.
Qed.

(** X13: List of a Slice is the decimal texts of the indices 0, 1, ...
    in order, one per element, and ListTo appends them to what the slice
    of keys already holds. *)
Theorem Slice_List_indices (s : Slice) (keys : list string) :
  Slice_List s =
  map (fun j => strconv.Itoa (Z.of_nat j)) (seq 0 (length (Slice_elems s))) /\
  length (Slice_List s) = length (Slice_elems s) /\
  Slice_ListTo s keys = keys ++ Slice_List s.
Proof.
  unfold Slice_List, Slice_ListTo.
  change 0%Z with (Z.of_nat 0). rewrite !ListTo_loop_spec. simpl.
  repeat split. now rewrite length_map, length_seq.
Qed.

(** X14: every key that List of an accessible Slice returns is found by
    SafeGet, which returns the element at the position of the key in the
    list with a nil error (for a slice of fewer than 2^63 elements, as
    every Go slice is). *)
Theorem Slice_listed_keys_are_found (s : Slice) (i : nat)
    (x : reflect.govalue) :
  Slice_ro s = false ->
  (Slice_Len s < 2 ^ 63)%Z ->
  nth_error (Slice_elems s) i = Some x ->
  exists key y,
    nth_error (Slice_List s) i = Some key /\
    reflect.Interface (reflect.Val false x) = Ret y /\
    Slice_SafeGet tryMake of_Value s key = Ret (tryMake y, None) /\
    Slice_Get tryMake of_Value s key = Ret (tryMake y, true).
Proof.
  intros Hro Hlen Hx.
  assert (Hi : i < length (Slice_elems s))
    by (apply nth_error_Some; congruence).
  destruct (Interface_accessible x) as [y Hy].
  exists (strconv.Itoa (Z.of_nat i)), y.
  assert (Hsafe : Slice_SafeGet tryMake of_Value s
                    (strconv.Itoa (Z.of_nat i)) = Ret (tryMake y, None)).
  { apply (Slice_Get_in_range s (Z.of_nat i) x y); auto.
    - apply Atoi_Itoa. unfold Slice_Len in *. lia.
    - unfold Slice_Len. lia.
    - now rewrite Nat2Z.id. }
  split; [|split; [exact Hy|split; [exact Hsafe|]]].
  - unfold Slice_List, Slice_ListTo. change 0%Z with (Z.of_nat 0).
    rewrite ListTo_loop_spec. simpl.
    rewrite nth_error_map, nth_error_seq.
    destruct (Nat.ltb_spec i (length (Slice_elems s))); [reflexivity | lia].
  - unfold Slice_Get. now rewrite Hsafe.
Qed.

End SliceLookup.

Section MapListing.

Variable obj : Type.
Variable tryMake : option reflect.govalue -> any obj.
Variable of_Value : reflect.Value -> any obj.

(** The runtime enumerates every key once, in an order of its own. *)
Variable order : list string -> list string.
Hypothesis order_permutes : forall l, Permutation (order l) l.





(** X17: a key whose stored value is not the zero value of its type is
    returned by SafeGet of an accessible map, converted by tryMake and
    with a nil error, and Get finds it; over a read-only map value the
    same key gives the error "cannot access value" with the value's type
    and the Value as Got. *)
Theorem Map_SafeGet_nonzero_value (ro : bool)
    (entries : list (string * reflect.govalue)) (key : string)
    (x : reflect.govalue) :
  let m := mkMap (reflect.Val ro (reflect.GMap (Some entries))) in
  reflect.lookup key entries = Some x ->
  reflect.IsZero (reflect.Val ro x) = Ret false ->
  (ro = false ->
   exists y,
     reflect.Interface (reflect.Val false x) = Ret y /\
     Map_SafeGet tryMake of_Value m key = Ret (tryMake y, None) /\
     Map_Get tryMake of_Value m key = Ret (tryMake y, true)) /\
  (ro = true ->
   Map_SafeGet tryMake of_Value m key =
   Ret (Nil,
        Some (Error "Get" [key] (of_Value (reflect.Val true x)) NoWant
                (ErrBackend ("cannot access value: " ++ reflect.type_name x))))
   /\
   Map_Get tryMake of_Value m key = Ret (Nil, false)).
Proof.
  intros m Hx Hzero.
  unfold Map_Get, Map_SafeGet; simpl. rewrite Hx, Hzero.
  split; intros ->.
  - destruct (Interface_accessible x) as [y Hy]. exists y.
    unfold reflect.CanInterface; cbn [negb]. rewrite Hy. auto.
  - unfold reflect.CanInterface; cbn [negb]. auto.
Qed.

End MapListing.

Section Resume.

Context {obj World : Type} {B : Backend obj World}.
Variable d : Dispatch obj World.


End Resume.

Section TooDeep.

Context {obj World : Type} {B : Backend obj World}.

(** X19: when a PrefixedWriter is nested 128 wrappers deep or more, the
    flattening gives up and returns the nil writer: SafeSet and SafeDel
    then fail with ErrUnexpectedType, Want a Reader, without any call on
    a backing object, and SafePut calls Put on the nil writer and
    panics. *)
Theorem nesting_beyond_maxDepth (fuel : nat) (pw : PrefixedWriter obj)
    (key : string) (value : any obj) (hint : Type_) (s : state obj World) :
  128 <= writer_depth (PrefixedWriter_W pw) ->
  PrefixedWriter_SafeSet (dispatch fuel) pw key value s =
  Ret ((false,
        Some (Error "Set" (PrefixedWriter_Key pw) (PrefixedWriter_W pw)
                WantReader ErrUnexpectedType)), s) /\
  PrefixedWriter_SafeDel (dispatch fuel) pw key s =
  Ret (Some (Error "Del" (PrefixedWriter_Key pw) (PrefixedWriter_W pw)
               WantReader ErrUnexpectedType), s) /\
  PrefixedWriter_SafePut (dispatch (S fuel)) pw key hint s = Panic.
Proof.
  intros Hdeep.
  assert (Hw : PrefixedWriter_writer pw = (Nil, [])).
  { unfold PrefixedWriter_writer.
    apply (writer_loop_bounded maxDepth pw (PrefixedWriter_Key pw)).
    exact Hdeep. }
  unfold PrefixedWriter_SafeSet, PrefixedWriter_SafeDel,
    PrefixedWriter_SafePut, PrefixedWriter_reader.
  rewrite Hw. split; [reflexivity|]. split; reflexivity.
Qed.

End TooDeep.

(** ** Runs of the further properties *)

Section FurtherRuns.

Import MemStore.

Lemma base_failure_extends_witness :
  PrefixedReader_base (dispatch 1)
    (mkPrefixedReader (["a"; "zz"] ++ ["q"; "r"]) (Obj plain)) "List"
    (start nested) =
  Ret ((Nil, Some (Error "List" ["a"; "zz"] (Obj (child plain "a")) NoWant
                     ErrNotFound)),
       mkState nested [CallGet plain "a"; CallGet (child plain "a") "zz"]).
Proof.
  exact (base_failure_extends (dispatch 1) (Obj plain) ["a"; "zz"] ["q"; "r"]
           "List" Nil
           (Error "List" ["a"; "zz"] (Obj (child plain "a")) NoWant ErrNotFound)
           (start nested)
           (mkState nested [CallGet plain "a"; CallGet (child plain "a") "zz"])
           eq_refl).
Defined.

Lemma SafeGet_error_shape_witness :
  exists n got want err,
    1 <= n <= 2 + 1 /\
    Error "Get" ["a"] (Int 7) WantReader ErrUnexpectedType =
    Error (obj := handle) "Get" (firstn n (["a"; "b"] ++ ["x"])) got want err.
Proof.
  exact (proj2 (SafeGet_error_shape (dispatch 1)
                  (mkPrefixedReader ["a"; "b"] (Obj plain)) "x" Nil
                  (Error "Get" ["a"] (Int 7) WantReader ErrUnexpectedType)
                  (start scalar) (mkState scalar [CallGet plain "a"])
                  eq_refl)).
Defined.

Lemma reads_leave_world_unchanged_witness :
  reads_only (start nested)
    (mkState nested
       [CallGet plain "a"; CallGet (child plain "a") "b";
        CallGet (child (child plain "a") "b") "x"]).
Proof.
  exact (proj1 (proj2 (reads_leave_world_unchanged 1
                         (PrefixReader (Obj plain) ["a"; "b"]) "x"
                         (start nested)))
           (Int 1, true) _ eq_refl).
Defined.

Lemma unresolved_prefix_writes_nothing_witness :
  PrefixedWriter_SafeSet (dispatch 1)
    (mkPrefixedWriter ["a"; "zz"] (Obj plain)) "k" (Int 5) (start nested) =
  Ret ((false,
        Some (Error "Set" ["a"; "zz"] (Obj (child plain "a")) NoWant
                ErrNotFound)),
       mkState nested [CallGet plain "a"; CallGet (child plain "a") "zz"]).
Proof.
  exact (proj1 (proj1 (unresolved_prefix_writes_nothing 1
                         (mkPrefixedWriter ["a"; "zz"] (Obj plain))
                         (mkPrefixedReader ["a"; "zz"] (Obj plain)) "k" (Int 5)
                         Nil
                         (Error "Set" ["a"; "zz"] (Obj (child plain "a")) NoWant
                            ErrNotFound)
                         (start nested)
                         (mkState nested
                            [CallGet plain "a"; CallGet (child plain "a") "zz"]))
                  eq_refl eq_refl)).
Defined.

Lemma SafeDel_final_dispatch_witness :
  PrefixedWriter_SafeDel (dispatch 1) (mkPrefixedWriter ["a"; "b"] (Obj plain))
    "nope" (start nested) =
  Ret (Some (Error "Del" ["a"; "b"; "nope"] Nil NoWant ErrNotFound),
       mkState nested
         [CallGet plain "a"; CallGet (child plain "a") "b";
          CallDel (child (child plain "a") "b") "nope"]).
Proof.
  exact (proj1 (proj1 (proj2 (SafeDel_final_dispatch (dispatch 1)
                                (mkPrefixedWriter ["a"; "b"] (Obj plain))
                                (mkPrefixedReader ["a"; "b"] (Obj plain))
                                "nope" (Obj (child (child plain "a") "b"))
                                (start nested)
                                (mkState nested
                                   [CallGet plain "a";
                                    CallGet (child plain "a") "b"])
                                eq_refl eq_refl))
                  eq_refl eq_refl) _ eq_refl).
Defined.

Lemma SafeSet_final_dispatch_witness :
  PrefixedWriter_SafeSet (dispatch 1) (mkPrefixedWriter ["a"; "b"] (Obj plain))
    "y" (Int 5) (start nested) =
  Ret ((true, None),
       mkState
         (Node [("a", Node [("b", Node [("y", Leaf 5); ("x", Leaf 1)])])])
         [CallGet plain "a"; CallGet (child plain "a") "b";
          CallSet (child (child plain "a") "b") "y" (Int 5)]).
Proof.
  exact (proj1 (proj2 (SafeSet_final_dispatch (dispatch 1)
                         (mkPrefixedWriter ["a"; "b"] (Obj plain))
                         (mkPrefixedReader ["a"; "b"] (Obj plain))
                         "y" (Int 5) (Obj (child (child plain "a") "b"))
                         (start nested)
                         (mkState nested
                            [CallGet plain "a"; CallGet (child plain "a") "b"])
                         eq_refl eq_refl))
           eq_refl eq_refl true _ eq_refl).
Defined.

Lemma SafeSet_error_is_false_witness :
  PrefixedWriter_Set (dispatch 1) (mkPrefixedWriter ["a"] (Obj plain)) "b"
    (Int 1) (start empty) =
  Ret (false, mkState empty [CallGet plain "a"]).
Proof.
  exact (proj2 (SafeSet_error_is_false (dispatch 1)
                  (mkPrefixedWriter ["a"] (Obj plain)) "b" (Int 1) false
                  (Error "Set" ["a"] (Obj plain) NoWant ErrNotFound)
                  (start empty) (mkState empty [CallGet plain "a"]) eq_refl)).
Defined.

Lemma SafePut_error_shape_witness :
  PrefixedWriter_Put (dispatch 1) (mkPrefixedWriter ["a"] (Obj safe)) "q"
    TypeMap (start scalar) =
  Ret (Nil, mkState scalar [CallSafePut safe "a" TypeMap]).
Proof.
  exact (proj1 (proj2 (SafePut_error_shape (dispatch 1)
                         (mkPrefixedWriter ["a"] (Obj safe)) "q" TypeMap Nil
                         (Error "Put" ["a"] (Obj safe) NoWant
                            (Error "Put" ["a"] Nil NoWant ErrUnexpectedType))
                         (start scalar)
                         (mkState scalar [CallSafePut safe "a" TypeMap])
                         eq_refl))).
Defined.

Lemma Slice_listed_keys_are_found_witness :
  exists key y,
    nth_error
      (Slice_List (mkSlice false [reflect.GInt 5; reflect.GString "a"])) 1 =
    Some key /\
    reflect.Interface (reflect.Val false (reflect.GString "a")) = Ret y /\
    Slice_SafeGet (fun _ => @Nil unit) (fun _ => Nil)
      (mkSlice false [reflect.GInt 5; reflect.GString "a"]) key =
    Ret (Nil, None) /\
    Slice_Get (fun _ => @Nil unit) (fun _ => Nil)
      (mkSlice false [reflect.GInt 5; reflect.GString "a"]) key =
    Ret (Nil, true).
Proof.
  refine (Slice_listed_keys_are_found unit (fun _ => Nil) (fun _ => Nil)
            (mkSlice false [reflect.GInt 5; reflect.GString "a"]) 1
            (reflect.GString "a") eq_refl _ eq_refl).
  vm_compute. reflexivity.
Defined.



Lemma Map_SafeGet_nonzero_value_witness :
  Map_Get (fun _ => @Nil unit) (fun _ => Nil)
    (mkMap (reflect.Val true
              (reflect.GMap (Some [("a", reflect.GInt 0);
                                   ("b", reflect.GInt 1)])))) "b" =
  Ret (Nil, false).
Proof.
  exact (proj2 (proj2 (Map_SafeGet_nonzero_value unit (fun _ => Nil)
                         (fun _ => Nil) true
                         [("a", reflect.GInt 0); ("b", reflect.GInt 1)] "b"
                         (reflect.GInt 1) eq_refl eq_refl) eq_refl)).
Defined.


Lemma nesting_beyond_maxDepth_witness :
  PrefixedWriter_SafePut (dispatch 1)
    (mkPrefixedWriter ["z"] (wrap_writer 128 "k" (Obj plain))) "q" TypeMap
    (start empty) = Panic.
Proof.
  refine (proj2 (proj2 (nesting_beyond_maxDepth 0
                          (mkPrefixedWriter ["z"]
                             (wrap_writer 128 "k" (Obj plain)))
                          "q" (Int 1) TypeMap (start empty) _))).
  vm_compute. lia.
Defined.

End FurtherRuns.
